(** * ITU T.42 colour conversion (spandsp [t42.c]): a shallow embedding

    The development follows the C source function by function.

    - [F32] is IEEE-754 binary32 ([float] in the source), built on the
      parametric operations of [SpecFloat] at precision 24 and maximal
      exponent 128, so every arithmetic step of the source rounds the way
      the compiled code does and can be evaluated.  Each operation of the
      source is one rounded operation (no extended precision, no fused
      multiply-add).
    - [uint8_t], [uint16_t] and [int] are integers of [Z] with the
      wrap-around written where the source relies on it.
    - A [lab_params_t] object is a record; the functions that write through
      the pointer [s] return the updated record.  Functions that also print
      run in a small state monad over the record and the lines printed.
    - The tables of [cielab_luts.h] and the C library's [cbrtf] are not part
      of the source.  The transform takes them as variables of a section;
      [Tables] gives the ones the specification describes, for the
      statements that need numbers.
    - libjpeg is an external collaborator: what it answers to each call is
      given by a record of outcomes. *)

From Stdlib Require Import String Ascii ZArith List Bool Lia QArith Qround Qabs.
From Stdlib Require Import Qpower Lqa.
From Stdlib Require Import Floats.SpecFloat.
Import ListNotations.

Open Scope Z_scope.

(** ** Machine integers *)

Definition uint8 (z : Z) : Z := z mod 256.
Definition uint16 (z : Z) : Z := z mod 65536.

(** Signed overflow is undefined in C; the usual targets wrap, and so does
    the model. *)
Definition sint32 (z : Z) : Z := (z + 2147483648) mod 4294967296 - 2147483648.

Definition INT_MIN : Z := -2147483648.
Definition INT_MAX : Z := 2147483647.

Definition is_uint8 (z : Z) : Prop := 0 <= z < 256.
Definition is_int (z : Z) : Prop := INT_MIN <= z <= INT_MAX.

(** A character constant, as the [int] it is in C. *)
Definition chr (c : ascii) : Z := Z.of_N (N_of_ascii c).

(** ** Byte buffers

    A pointer to bytes is the list of the bytes it points to.  [peek] reads
    one of them and [poke] writes one.  Reading or writing past the end of
    the object is undefined in C; the model reads 0 there and drops the
    write. *)

Definition peek (p : list Z) (i : nat) : Z := nth i p 0.

Fixpoint poke (p : list Z) (i : nat) (v : Z) : list Z :=
  match p, i with
  | [], _ => []
  | _ :: q, O => v :: q
  | x :: q, S j => x :: poke q j v
  end.

(** Pointer arithmetic: [p + n]. *)
Definition advance (p : list Z) (n : nat) : list Z := skipn n p.

(** ** IEEE-754 binary32 *)

Module F32.

Definition prec : Z := 24.
Definition emax : Z := 128.

Definition float : Type := spec_float.

Definition valid (x : float) : bool := valid_binary prec emax x.

Definition add : float -> float -> float := SFadd prec emax.
Definition sub : float -> float -> float := SFsub prec emax.
Definition mul : float -> float -> float := SFmul prec emax.
Definition div : float -> float -> float := SFdiv prec emax.
Definition neg : float -> float := SFopp.

(** [x < y], [x <= y] and [x > y]; all three are false on a NaN. *)
Definition ltb : float -> float -> bool := SFltb.
Definition leb : float -> float -> bool := SFleb.
Definition gtb (x y : float) : bool := SFltb y x.

(** Conversion of an [int] to [float], to nearest even. *)
Definition of_int (n : Z) : float := binary_normalize prec emax n 0 false.

(** The decimal constant [n/d] written in the source with an [f] suffix:
    the binary32 nearest to the quotient (both [n] and [d] are below
    [2^24], hence exact before the one rounding of the division). *)
Definition lit (n d : Z) : float := div (of_int n) (of_int d).

Definition zero : float := S754_zero false.

(** The signed mantissa and the integer part of a finite float. *)
Definition smant (s : bool) (m : positive) : Z := cond_Zopp s (Zpos m).

(** Largest integer not above the value. *)
Definition floor_int (x : float) : Z :=
  match x with
  | S754_finite s m e =>
      if 0 <=? e then smant s m * 2 ^ e else smant s m / 2 ^ (- e)
  | _ => 0
  end.

(** The value rounded toward zero. *)
Definition trunc_int (x : float) : Z :=
  match x with
  | S754_finite s m e =>
      if 0 <=? e then smant s m * 2 ^ e else Z.quot (smant s m) (2 ^ (- e))
  | _ => 0
  end.

(** [floorf] of the C library: exact, keeps infinities, NaN and the
    sign of zero. *)
Definition floorf (x : float) : float :=
  match x with
  | S754_finite s m e =>
      if 0 <=? e then x else binary_normalize prec emax (floor_int x) 0 s
  | _ => x
  end.

(** Conversion of a [float] to [int]: the fraction is discarded.  When
    the value does not fit (or is not a number) C leaves the result
    undefined; the model takes what the x86 conversion instruction
    returns, [INT_MIN]. *)
Definition to_int (x : float) : Z :=
  match x with
  | S754_zero _ => 0
  | S754_finite _ _ _ =>
      let t := trunc_int x in
      if (INT_MIN <=? t) && (t <=? INT_MAX) then t else INT_MIN
  | _ => INT_MIN
  end.

(** Conversion of a [float] to [uint8_t]. *)
Definition to_uint8 (x : float) : Z := uint8 (to_int x).

(** The rational a finite float stands for (0 for the others). *)
Definition F2Q (x : float) : Q :=
  match x with
  | S754_finite s m e =>
      if 0 <=? e then inject_Z (smant s m * 2 ^ e)
      else Qmake (smant s m) (Z.to_pos (2 ^ (- e)))
  | _ => 0%Q
  end.

(** The exponent [e] is the one binary32 gives to the mantissa [m]. *)
Definition canonical (m e : Z) : Prop := fexp prec emax (Zdigits2 m + e) = e.

Definition is_finite (x : float) : bool :=
  match x with
  | S754_zero _ | S754_finite _ _ _ => true
  | _ => false
  end.

Definition is_zero (x : float) : bool :=
  match x with
  | S754_zero _ => true
  | _ => false
  end.

End F32.

Definition float : Type := F32.float.

(** ** Data model *)

(** Modelled from the spec: [struct lab_params_s] is declared in a private
    header that is missing.  The fields are those of the specification's
    LabParameters (white point, per-channel range and offset, signedness of
    the a* and b* codes), under the names and with the types [t42.c] uses them. *)
Record lab_params_t : Type := {
  range_L : float;
  range_a : float;
  range_b : float;
  offset_L : float;
  offset_a : float;
  offset_b : float;
  ab_are_signed : Z;
  x_n : float;
  y_n : float;
  z_n : float
}.

Definition with_range_L v (s : lab_params_t) :=
  {| range_L := v; range_a := range_a s; range_b := range_b s;
     offset_L := offset_L s; offset_a := offset_a s; offset_b := offset_b s;
     ab_are_signed := ab_are_signed s; x_n := x_n s; y_n := y_n s; z_n := z_n s |}.
Definition with_range_a v (s : lab_params_t) :=
  {| range_L := range_L s; range_a := v; range_b := range_b s;
     offset_L := offset_L s; offset_a := offset_a s; offset_b := offset_b s;
     ab_are_signed := ab_are_signed s; x_n := x_n s; y_n := y_n s; z_n := z_n s |}.
Definition with_range_b v (s : lab_params_t) :=
  {| range_L := range_L s; range_a := range_a s; range_b := v;
     offset_L := offset_L s; offset_a := offset_a s; offset_b := offset_b s;
     ab_are_signed := ab_are_signed s; x_n := x_n s; y_n := y_n s; z_n := z_n s |}.
Definition with_offset_L v (s : lab_params_t) :=
  {| range_L := range_L s; range_a := range_a s; range_b := range_b s;
     offset_L := v; offset_a := offset_a s; offset_b := offset_b s;
     ab_are_signed := ab_are_signed s; x_n := x_n s; y_n := y_n s; z_n := z_n s |}.
Definition with_offset_a v (s : lab_params_t) :=
  {| range_L := range_L s; range_a := range_a s; range_b := range_b s;
     offset_L := offset_L s; offset_a := v; offset_b := offset_b s;
     ab_are_signed := ab_are_signed s; x_n := x_n s; y_n := y_n s; z_n := z_n s |}.
Definition with_offset_b v (s : lab_params_t) :=
  {| range_L := range_L s; range_a := range_a s; range_b := range_b s;
     offset_L := offset_L s; offset_a := offset_a s; offset_b := v;
     ab_are_signed := ab_are_signed s; x_n := x_n s; y_n := y_n s; z_n := z_n s |}.
Definition with_ab_are_signed v (s : lab_params_t) :=
  {| range_L := range_L s; range_a := range_a s; range_b := range_b s;
     offset_L := offset_L s; offset_a := offset_a s; offset_b := offset_b s;
     ab_are_signed := v; x_n := x_n s; y_n := y_n s; z_n := z_n s |}.
Definition with_x_n v (s : lab_params_t) :=
  {| range_L := range_L s; range_a := range_a s; range_b := range_b s;
     offset_L := offset_L s; offset_a := offset_a s; offset_b := offset_b s;
     ab_are_signed := ab_are_signed s; x_n := v; y_n := y_n s; z_n := z_n s |}.
Definition with_y_n v (s : lab_params_t) :=
  {| range_L := range_L s; range_a := range_a s; range_b := range_b s;
     offset_L := offset_L s; offset_a := offset_a s; offset_b := offset_b s;
     ab_are_signed := ab_are_signed s; x_n := x_n s; y_n := v; z_n := z_n s |}.
Definition with_z_n v (s : lab_params_t) :=
  {| range_L := range_L s; range_a := range_a s; range_b := range_b s;
     offset_L := offset_L s; offset_a := offset_a s; offset_b := offset_b s;
     ab_are_signed := ab_are_signed s; x_n := x_n s; y_n := y_n s; z_n := v |}.

(** [cielab_t]; the field names [L], [a] and [b] live in a module of
    their own. *)
Module cielab.
Record t : Type := make { L : float; a : float; b : float }.
End cielab.
Definition cielab_t : Type := cielab.t.

(** [illuminant_t]: a tag of five bytes (four and the terminator of the
    string that initialises it), a name and the tristimulus values. *)
Record illuminant_t : Type := {
  tag : list Z;
  name : string;
  xn : float;
  yn : float;
  zn : float
}.

Definition tag_of (c1 c2 c3 c4 : Z) : list Z := [c1; c2; c3; c4; 0].
Definition no_tag : list Z := [0; 0; 0; 0; 0].

Definition illuminants : list illuminant_t :=
  [ {| tag := tag_of 0 (chr "D") (chr "5") (chr "0"); name := "CIE D50/2°";
       xn := F32.lit 96422 1000; yn := F32.of_int 100; zn := F32.lit 82521 1000 |};
    {| tag := no_tag; name := "CIE D50/10°";
       xn := F32.lit 96720 1000; yn := F32.of_int 100; zn := F32.lit 81427 1000 |};
    {| tag := no_tag; name := "CIE D55/2°";
       xn := F32.lit 95682 1000; yn := F32.of_int 100; zn := F32.lit 92149 1000 |};
    {| tag := no_tag; name := "CIE D55/10°";
       xn := F32.lit 95799 1000; yn := F32.of_int 100; zn := F32.lit 90926 1000 |};
    {| tag := tag_of 0 (chr "D") (chr "6") (chr "5"); name := "CIE D65/2°";
       xn := F32.lit 95047 1000; yn := F32.of_int 100; zn := F32.lit 108883 1000 |};
    {| tag := no_tag; name := "CIE D65/10°";
       xn := F32.lit 94811 1000; yn := F32.of_int 100; zn := F32.lit 107304 1000 |};
    {| tag := tag_of 0 (chr "D") (chr "7") (chr "5"); name := "CIE D75/2°";
       xn := F32.lit 94972 1000; yn := F32.of_int 100; zn := F32.lit 122638 1000 |};
    {| tag := no_tag; name := "CIE D75/10°";
       xn := F32.lit 94416 1000; yn := F32.of_int 100; zn := F32.lit 120641 1000 |};
    {| tag := tag_of 0 0 (chr "F") (chr "2"); name := "F02/2°";
       xn := F32.lit 99186 1000; yn := F32.of_int 100; zn := F32.lit 67393 1000 |};
    {| tag := no_tag; name := "F02/10°";
       xn := F32.lit 103279 1000; yn := F32.of_int 100; zn := F32.lit 69027 1000 |};
    {| tag := tag_of 0 0 (chr "F") (chr "7"); name := "F07/2°";
       xn := F32.lit 95041 1000; yn := F32.of_int 100; zn := F32.lit 108747 1000 |};
    {| tag := no_tag; name := "F07/10°";
       xn := F32.lit 95792 1000; yn := F32.of_int 100; zn := F32.lit 107686 1000 |};
    {| tag := tag_of 0 (chr "F") (chr "1") (chr "1"); name := "F11/2°";
       xn := F32.lit 100962 1000; yn := F32.of_int 100; zn := F32.lit 64350 1000 |};
    {| tag := no_tag; name := "F11/10°";
       xn := F32.lit 103863 1000; yn := F32.of_int 100; zn := F32.lit 65607 1000 |};
    {| tag := tag_of 0 0 (chr "S") (chr "A"); name := "A/2°";
       xn := F32.lit 109850 1000; yn := F32.of_int 100; zn := F32.lit 35585 1000 |};
    {| tag := no_tag; name := "A/10°";
       xn := F32.lit 111144 1000; yn := F32.of_int 100; zn := F32.lit 35200 1000 |};
    {| tag := tag_of 0 0 (chr "S") (chr "C"); name := "C/2°";
       xn := F32.lit 98074 1000; yn := F32.of_int 100; zn := F32.lit 118232 1000 |};
    {| tag := no_tag; name := "C/10°";
       xn := F32.lit 97285 1000; yn := F32.of_int 100; zn := F32.lit 116145 1000 |};
    {| tag := no_tag; name := "";
       xn := F32.zero; yn := F32.zero; zn := F32.zero |} ].

(** ** Printing and the state monad

    The functions below write through the pointer [s] and print on the
    standard output.  A computation takes the object [s] points to and the
    lines printed so far, and gives them back updated. *)

Inductive printed : Type :=
| Print_colour_temp (colour_temp : Z)
| Print_illuminant (name : string)
| Print_unrecognised_illuminant (c0 c1 c2 c3 : Z)
| Print_gamut (v0 v1 v2 v3 v4 v5 : Z)
| Print_version (version resolution : Z)
| Print_set_gamut
| Print_set_illuminant
| Print_set_colour_palette
| Print_colour_palette (v : Z)
| Print_trace (n : Z).

Record world : Type := {
  params : lab_params_t;
  stdout : list printed
}.

Definition M (A : Type) : Type := world -> A * world.

Definition ret {A} (x : A) : M A := fun w => (x, w).
Definition bind {A B} (m : M A) (k : A -> M B) : M B :=
  fun w => let (x, w') := m w in k x w'.
Definition printf (p : printed) : M unit :=
  fun w => (tt, {| params := params w; stdout := stdout w ++ [p] |}).
Definition update (f : lab_params_t -> lab_params_t) : M unit :=
  fun w => (tt, {| params := f (params w); stdout := stdout w |}).

Notation "x <- m ;; k" := (bind m (fun x => k))
  (at level 61, m at next level, right associativity).
Notation "m ;; k" := (bind m (fun _ => k))
  (at level 61, right associativity).

(** ** Packing 16-bit fields *)

Definition pack_16 (s : list Z) : Z :=
  uint16 (Z.lor (Z.shiftl (peek s 0) 8) (peek s 1)).

(** [unpack_16] stores at [s + off] and returns [sizeof(uint16_t)]. *)
Definition unpack_16 (s : list Z) (off : nat) (value : Z) : list Z * Z :=
  let s := poke s off (Z.land (Z.shiftr value 8) 255) in
  let s := poke s (off + 1) (Z.land value 255) in
  (s, 2).

(** ** The parameter store *)

Definition f256 : float := F32.of_int 256.
Definition f1 : float := F32.of_int 1.
Definition f100 : float := F32.of_int 100.
Definition f10 : float := F32.of_int 10.

Definition set_lab_illuminant (s : lab_params_t) (new_xn new_yn new_zn : float)
  : lab_params_t :=
  if F32.gtb new_yn f10 then
    let s := with_x_n (F32.div new_xn f100) s in
    let s := with_y_n (F32.div new_yn f100) s in
    with_z_n (F32.div new_zn f100) s
  else
    let s := with_x_n new_xn s in
    let s := with_y_n new_yn s in
    with_z_n new_zn s.

Definition set_lab_gamut (s : lab_params_t)
    (L_min L_max a_min a_max b_min b_max ab_signed : Z) : lab_params_t :=
  let s := with_range_L (F32.of_int (sint32 (L_max - L_min))) s in
  let s := with_range_a (F32.of_int (sint32 (a_max - a_min))) s in
  let s := with_range_b (F32.of_int (sint32 (b_max - b_min))) s in
  let s := with_offset_L
             (F32.div (F32.mul (F32.neg f256) (F32.of_int L_min)) (range_L s)) s in
  let s := with_offset_a
             (F32.div (F32.mul (F32.neg f256) (F32.of_int a_min)) (range_a s)) s in
  let s := with_offset_b
             (F32.div (F32.mul (F32.neg f256) (F32.of_int b_min)) (range_b s)) s in
  let s := with_range_L (F32.div (range_L s) (F32.sub f256 f1)) s in
  let s := with_range_a (F32.div (range_a s) (F32.sub f256 f1)) s in
  let s := with_range_b (F32.div (range_b s) (F32.sub f256 f1)) s in
  with_ab_are_signed ab_signed s.

Definition FALSE : Z := 0.
Definition TRUE : Z := 1.

Definition set_lab_gamut2 (s : lab_params_t) (L_P L_Q a_P a_Q b_P b_Q : Z)
  : lab_params_t :=
  let s := with_range_L (F32.div (F32.of_int L_Q) (F32.sub f256 f1)) s in
  let s := with_range_a (F32.div (F32.of_int a_Q) (F32.sub f256 f1)) s in
  let s := with_range_b (F32.div (F32.of_int b_Q) (F32.sub f256 f1)) s in
  let s := with_offset_L (F32.of_int L_P) s in
  let s := with_offset_a (F32.of_int a_P) s in
  let s := with_offset_b (F32.of_int b_P) s in
  with_ab_are_signed FALSE s.

(** [memcmp(p, q, n) == 0]. *)
Fixpoint memcmp_eq (p q : list Z) (n : nat) : bool :=
  match n with
  | O => true
  | S n' => (peek p 0 =? peek q 0) && memcmp_eq (advance p 1) (advance q 1) n'
  end.

Definition name_is_empty (e : illuminant_t) : bool :=
  match name e with
  | EmptyString => true
  | String _ _ => false
  end.

(** The search loop of [set_illuminant_from_code], from entry [i] on, the
    rest of the table being [tbl].  The result tells whether the loop
    stopped on the entry with the empty name. *)
Fixpoint scan_illuminants (tbl : list illuminant_t) (code : list Z) : M bool :=
  match tbl with
  | [] => ret true
  | e :: rest =>
      if name_is_empty e then ret true
      else if memcmp_eq code (tag e) 4 then
        printf (Print_illuminant (name e)) ;;
        update (fun s => set_lab_illuminant s (xn e) (yn e) (zn e)) ;;
        ret false
      else scan_illuminants rest code
  end.

Definition set_illuminant_from_code (code : list Z) : M unit :=
  if (peek code 0 =? chr "C") && (peek code 1 =? chr "T") then
    let colour_temp := pack_16 (advance code 2) in
    printf (Print_colour_temp colour_temp)
  else
    at_end <- scan_illuminants illuminants code ;;
    if (at_end : bool) then
      printf (Print_unrecognised_illuminant
                (peek code 0) (peek code 1) (peek code 2) (peek code 3))
    else ret tt.

Definition set_gamut_from_code (code : list Z) : M unit :=
  let val := map (fun i => pack_16 (advance code (2 * i))) (seq 0 6) in
  let v i := nth i val 0 in
  printf (Print_gamut (v 0%nat) (v 1%nat) (v 2%nat) (v 3%nat) (v 4%nat) (v 5%nat)) ;;
  update (fun s => set_lab_gamut2 s (v 0%nat) (v 1%nat) (v 2%nat) (v 3%nat) (v 4%nat) (v 5%nat)).

(** ** The marker protocol *)

Definition JPEG_APP0 : Z := 224.

(** [struct jpeg_marker_struct] of libjpeg; the [next] pointers make the
    chain a list.  [data] is the memory the segment's pointer refers to. *)
Record jpeg_marker : Type := {
  marker : Z;
  original_length : Z;
  data_length : Z;
  data : list Z
}.

(** [strncmp(p, q, n) == 0]: the comparison stops at the first difference,
    after a terminator common to both, or after [n] characters. *)
Fixpoint strncmp_eq (p q : list Z) (n : nat) : bool :=
  match n with
  | O => true
  | S n' =>
      if peek p 0 =? peek q 0 then
        if peek p 0 =? 0 then true
        else strncmp_eq (advance p 1) (advance q 1) n'
      else false
  end.

Definition G3FAX : list Z :=
  [chr "G"; chr "3"; chr "F"; chr "A"; chr "X"; 0].

(** The body of the [while] loop of [isITUfax] for one segment. *)
Definition isITUfax_segment (ptr : jpeg_marker) (ok : Z) : M Z :=
  if (marker ptr =? JPEG_APP0 + 1) && (6 <=? data_length ptr) then
    let data := data ptr in
    if strncmp_eq data G3FAX 5 then
      match peek data 5 with
      | 0 =>
          let val := map (fun i => pack_16 (advance data (6 + 2 * i))) (seq 0 2) in
          printf (Print_version (nth 0 val 0) (nth 1 val 0)) ;;
          ret TRUE
      | 1 =>
          printf Print_set_gamut ;;
          set_gamut_from_code (advance data 6) ;;
          ret TRUE
      | 2 =>
          printf Print_set_illuminant ;;
          set_illuminant_from_code (advance data 6) ;;
          ret TRUE
      | 3 =>
          printf Print_set_colour_palette ;;
          printf (Print_colour_palette (pack_16 (advance data 6))) ;;
          ret ok
      | _ => ret ok
      end
    else ret ok
  else ret ok.

Fixpoint isITUfax_loop (ptr : list jpeg_marker) (ok : Z) : M Z :=
  match ptr with
  | [] => ret ok
  | m :: next => ok' <- isITUfax_segment m ok ;; isITUfax_loop next ok'
  end.

Definition isITUfax (ptr : list jpeg_marker) : M Z :=
  isITUfax_loop ptr FALSE.

(** The part of a libjpeg compressor the file acts on: the markers handed
    to [jpeg_write_marker] and the scan lines handed to
    [jpeg_write_scanlines], in the order of the calls. *)
Record compressor : Type := {
  in_color_space : Z;
  markers_written : list (Z * list Z);
  lines_written : list (list Z)
}.

Definition jpeg_write_marker (cinfo : compressor) (mk : Z) (dataptr : list Z)
    (datalen : Z) : compressor :=
  {| in_color_space := in_color_space cinfo;
     markers_written :=
       markers_written cinfo ++ [(mk, firstn (Z.to_nat datalen) dataptr)];
     lines_written := lines_written cinfo |}.

Definition SetITUFax (cinfo : compressor) : compressor :=
  let marker :=
    [chr "G"; chr "3"; chr "F"; chr "A"; chr "X"; 0; 7; 202; 0; 0] in
  let marker := fst (unpack_16 marker 8 200) in
  jpeg_write_marker cinfo (JPEG_APP0 + 1) marker 10.

(** ** The colour transform engine *)

(** A C condition: any non-zero value is true. *)
Definition truth (z : Z) : bool := negb (z =? 0).

Definition itu_to_lab (s : lab_params_t) (inp : list Z) : cielab_t :=
  (* T.4 E.6.4 *)
  let L := F32.mul (range_L s) (F32.sub (F32.of_int (peek inp 0)) (offset_L s)) in
  let a := peek inp 1 in
  let b := peek inp 2 in
  let a := if truth (ab_are_signed s) then uint8 (a + 128) else a in
  let b := if truth (ab_are_signed s) then uint8 (b + 128) else b in
  cielab.make L
    (F32.mul (range_a s) (F32.sub (F32.of_int a) (offset_a s)))
    (F32.mul (range_b s) (F32.sub (F32.of_int b) (offset_b s))).

(** The value stored by
    [out[k] = (uint8_t) (val < 0.0) ? 0 : (val < 256.0) ? val : 255;].
    The cast binds to the first comparison only, so the conditional has
    type [float] and is converted to [uint8_t] by the assignment.  The
    comparisons are made in [double], where they agree with binary32. *)
Definition clamp_store (val : float) : Z :=
  F32.to_uint8
    (if truth (uint8 (Z.b2z (F32.ltb val F32.zero))) then F32.of_int 0
     else if F32.ltb val f256 then val
     else F32.of_int 255).

(** [lab_to_itu] writes the three bytes at [out + off]. *)
Definition lab_to_itu (s : lab_params_t) (out : list Z) (off : nat)
    (lab : cielab_t) : list Z :=
  (* T.4 E.6.4 *)
  let val := F32.floorf (F32.add (F32.div (cielab.L lab) (range_L s)) (offset_L s)) in
  let out := poke out off (clamp_store val) in
  let val := F32.floorf (F32.add (F32.div (cielab.a lab) (range_a s)) (offset_a s)) in
  let out := poke out (off + 1) (clamp_store val) in
  let val := F32.floorf (F32.add (F32.div (cielab.b lab) (range_b s)) (offset_b s)) in
  let out := poke out (off + 2) (clamp_store val) in
  if truth (ab_are_signed s) then
    let out := poke out (off + 1) (uint8 (peek out (off + 1) - 128)) in
    poke out (off + 2) (uint8 (peek out (off + 2) - 128))
  else out.

(** Linear RGB to XYZ, then normalised for the illuminant. *)
Definition normalised_xyz (s : lab_params_t) (r g b : float)
  : float * float * float :=
  (* Linear RGB to XYZ *)
  let x := F32.add (F32.add (F32.mul (F32.lit 4124 10000) r)
                            (F32.mul (F32.lit 3576 10000) g))
                   (F32.mul (F32.lit 1805 10000) b) in
  let y := F32.add (F32.add (F32.mul (F32.lit 2126 10000) r)
                            (F32.mul (F32.lit 7152 10000) g))
                   (F32.mul (F32.lit 722 10000) b) in
  let z := F32.add (F32.add (F32.mul (F32.lit 193 10000) r)
                            (F32.mul (F32.lit 1192 10000) g))
                   (F32.mul (F32.lit 9505 10000) b) in
  (* Normalise for the illuminant *)
  (F32.div x (x_n s), F32.div y (y_n s), F32.div z (z_n s)).

Section Engine.

(** The tables of [cielab_luts.h] (256 and 4096 entries) and [cbrtf] of
    the C library.  [T42_USE_LUTS] is defined in the file, so the table
    branches are the ones compiled. *)
Variable sRGB_to_linear : Z -> float.
Variable linear_to_sRGB : Z -> Z.
Variable cbrtf : float -> float.

(** XYZ to Lab, one coordinate. *)
Definition lab_f (x : float) : float :=
  if F32.leb x (F32.lit 8856 1000000)
  then F32.add (F32.mul (F32.lit 7787 1000) x) (F32.lit 1379 10000)
  else cbrtf x.

(** XYZ to Lab. *)
Definition xyz_to_lab (xyz : float * float * float) : cielab_t :=
  let '(x, y, z) := xyz in
  let xx := lab_f x in
  let yy := lab_f y in
  let zz := lab_f z in
  cielab.make
    (F32.sub (F32.mul (F32.of_int 116) yy) (F32.of_int 16))
    (F32.mul (F32.of_int 500) (F32.sub xx yy))
    (F32.mul (F32.of_int 200) (F32.sub yy zz)).

(** One pass of the loop of [srgb_to_lab], on the pixel at offset [off]
    of both buffers. *)
Definition srgb_to_lab_pixel (s : lab_params_t) (lab srgb : list Z)
    (off : nat) : list Z :=
  let r := sRGB_to_linear (peek srgb off) in
  let g := sRGB_to_linear (peek srgb (off + 1)) in
  let b := sRGB_to_linear (peek srgb (off + 2)) in
  let l := xyz_to_lab (normalised_xyz s r g b) in
  lab_to_itu s lab off l.

Fixpoint srgb_to_lab_loop (n i : nat) (s : lab_params_t) (lab srgb : list Z)
  : list Z :=
  match n with
  | O => lab
  | S n' => srgb_to_lab_loop n' (S i) s (srgb_to_lab_pixel s lab srgb (3 * i)) srgb
  end.

(** [srgb_to_lab (s, lab, srgb, pixels)]: the final content of [lab].
    The loop [for (i = 0; i < pixels; i++)] runs [max 0 pixels] times. *)
Definition srgb_to_lab (s : lab_params_t) (lab srgb : list Z) (pixels : Z)
  : list Z :=
  srgb_to_lab_loop (Z.to_nat pixels) 0 s lab srgb.

(** Lab to XYZ, one coordinate. *)
Definition lab_finv (t : float) : float :=
  if F32.leb t (F32.lit 2068 10000)
  then F32.mul (F32.lit 1284 10000) (F32.sub t (F32.lit 1379 10000))
  else F32.mul (F32.mul t t) t.

(** The table index computed from a linear component. *)
Definition lut_index (v : float) : Z :=
  let val := F32.to_int (F32.mul v (F32.of_int 4096)) in
  if val <? 0 then 0 else if val <? 4095 then val else 4095.

Definition lab_to_srgb_pixel (s : lab_params_t) (srgb lab : list Z)
    (off : nat) : list Z :=
  let l := itu_to_lab s (advance lab off) in
  (* Lab to XYZ *)
  let ll := F32.mul (F32.div f1 (F32.of_int 116))
                    (F32.add (cielab.L l) (F32.of_int 16)) in
  let y := lab_finv ll in
  let x := lab_finv (F32.add ll (F32.mul (F32.div f1 (F32.of_int 500)) (cielab.a l))) in
  let z := lab_finv (F32.sub ll (F32.mul (F32.div f1 (F32.of_int 200)) (cielab.b l))) in
  (* Normalise for the illuminant *)
  let x := F32.mul x (x_n s) in
  let y := F32.mul y (y_n s) in
  let z := F32.mul z (z_n s) in
  (* XYZ to linear RGB *)
  let r := F32.sub (F32.sub (F32.mul (F32.lit 32406 10000) x)
                            (F32.mul (F32.lit 15372 10000) y))
                   (F32.mul (F32.lit 4986 10000) z) in
  let g := F32.add (F32.add (F32.mul (F32.neg (F32.lit 9689 10000)) x)
                            (F32.mul (F32.lit 18758 10000) y))
                   (F32.mul (F32.lit 415 10000) z) in
  let b := F32.add (F32.sub (F32.mul (F32.lit 557 10000) x)
                            (F32.mul (F32.lit 2040 10000) y))
                   (F32.mul (F32.lit 10570 10000) z) in
  let srgb := poke srgb off (linear_to_sRGB (lut_index r)) in
  let srgb := poke srgb (off + 1) (linear_to_sRGB (lut_index g)) in
  poke srgb (off + 2) (linear_to_sRGB (lut_index b)).

Fixpoint lab_to_srgb_loop (n i : nat) (s : lab_params_t) (srgb lab : list Z)
  : list Z :=
  match n with
  | O => srgb
  | S n' => lab_to_srgb_loop n' (S i) s (lab_to_srgb_pixel s srgb lab (3 * i)) lab
  end.

Definition lab_to_srgb (s : lab_params_t) (srgb lab : list Z) (pixels : Z)
  : list Z :=
  lab_to_srgb_loop (Z.to_nat pixels) 0 s srgb lab.

End Engine.

(** ** The container bridge

    libjpeg and the C library are outside the file.  A call into libjpeg
    either returns or reports a fatal condition: the error handler installed
    by the file ([jpg_error_exit]) formats the message and jumps back to the
    [setjmp] of the running operation. *)

Inductive outcome (A : Type) : Type :=
| Fatal (message : string)
| Returned (x : A).
Arguments Fatal {A} message.
Arguments Returned {A} x.

Record jpeg_header : Type := {
  marker_list : list jpeg_marker;
  image_width : Z;
  image_height : Z;
  num_components : Z
}.

(** What the decompressor answers for the source stream: the header, the
    start of decompression, one answer per scan line (there are
    [output_height] of them) and the end of decompression. *)
Record decoder : Type := {
  read_header : outcome jpeg_header;
  start_decompress : outcome unit;
  read_scanlines : list (outcome (list Z));
  finish_decompress : outcome unit
}.

(** What the compressor answers; [finish_compress] gives the bytes found in
    the output stream. *)
Record encoder : Type := {
  start_compress : outcome unit;
  write_scanlines : compressor -> list Z -> outcome unit;
  finish_compress : compressor -> outcome (list Z)
}.

(** Whether the C library calls succeed. *)
Record libc : Type := {
  fmemopen_ok : bool;
  open_memstream_ok : bool;
  fseek_ok : bool;
  malloc_in_ok : bool;
  malloc_out_ok : bool
}.

Definition JCS_RGB : Z := 2.
Definition JCS_YCbCr : Z := 3.

(** [if (emsg[0] == '\0') strcpy(emsg, msg);] *)
Definition strcpy_if_empty (emsg msg : string) : string :=
  match emsg with
  | EmptyString => msg
  | String _ _ => emsg
  end.

(** [strncpy(emsg, message, max_emsg_bytes - 1); emsg[max_emsg_bytes - 1] = '\0';] *)
Definition strncpy_message (message : string) (max_emsg_bytes : Z) : string :=
  substring 0 (Z.to_nat (max_emsg_bytes - 1)) message.

(** The recovery point of [t42_itulab_to_jpeg] and [t42_itulab_to_srgb]. *)
Definition escaped (message : string) (max_emsg_bytes : Z) : string :=
  strcpy_if_empty (strncpy_message message max_emsg_bytes)
                  "Unspecified libjpeg error.".

(** Memory fresh from [malloc]; its content is indeterminate and is
    written before it is read. *)
Definition malloc (n : Z) : list Z := repeat 0 (Z.to_nat n).

Definition push_line (cinfo : compressor) (line : list Z) : compressor :=
  {| in_color_space := in_color_space cinfo;
     markers_written := markers_written cinfo;
     lines_written := lines_written cinfo ++ [line] |}.

(** What a caller of [t42_itulab_to_jpeg] observes: the value returned, the
    message, [*dst] when it has been assigned ([*dstlen] is its length), and
    the scan lines produced by [lab_to_srgb] and handed to the
    compressor. *)
Record to_jpeg_result : Type := {
  jpeg_ret : Z;
  jpeg_emsg : string;
  jpeg_dst : option (list Z);
  jpeg_lines : list (list Z)
}.

(** What a caller of [t42_itulab_to_srgb] observes: the value returned, the
    message, the caller's buffer [dst], [*dstlen], [*width] and [*height]
    when assigned, and the number of scan lines passed through
    [lab_to_srgb]. *)
Record to_srgb_result : Type := {
  srgb_ret : Z;
  srgb_emsg : string;
  srgb_dst : list Z;
  srgb_dstlen : option Z;
  srgb_width : option Z;
  srgb_height : option Z;
  srgb_lines : nat
}.

Definition get_params : M lab_params_t := fun w => (params w, w).

Section Bridge.

Variable linear_to_sRGB : Z -> Z.

(** The [while] loop of [t42_itulab_to_jpeg]. *)
Fixpoint itulab_to_jpeg_lines (rows : list (outcome (list Z))) (enc : encoder)
    (s : lab_params_t) (output_width : Z) (scan_line_out : list Z)
    (cinfo : compressor) : compressor * option string :=
  match rows with
  | [] => (cinfo, None)
  | Fatal message :: _ => (cinfo, Some message)
  | Returned scan_line_in :: rest =>
      let scan_line_out :=
        lab_to_srgb linear_to_sRGB s scan_line_out scan_line_in
                    (sint32 output_width) in
      match write_scanlines enc cinfo scan_line_out with
      | Fatal message => (cinfo, Some message)
      | Returned _ =>
          itulab_to_jpeg_lines rest enc s output_width scan_line_out
                               (push_line cinfo scan_line_out)
      end
  end.

Definition t42_itulab_to_jpeg (env : libc) (dec : decoder) (enc : encoder)
    (max_emsg_bytes : Z) : M to_jpeg_result :=
  let emsg := EmptyString in
  let failed emsg lines :=
    {| jpeg_ret := FALSE; jpeg_emsg := emsg; jpeg_dst := None;
       jpeg_lines := lines |} in
  if negb (fmemopen_ok env) then
    ret (failed (strcpy_if_empty emsg "Failed to fmemopen().") [])
  else if negb (open_memstream_ok env) then
    ret (failed (strcpy_if_empty emsg "Failed to open_memstream().") [])
  else if negb (fseek_ok env) then
    (* Rewind the file *)
    ret (failed emsg [])
  else
    (* Take the header *)
    match read_header dec with
    | Fatal message => ret (failed (escaped message max_emsg_bytes) [])
    | Returned hdr =>
        (* Sanity check and parameter check *)
        ok <- isITUfax (marker_list hdr) ;;
        if negb (truth ok) then
          ret (failed (strcpy_if_empty emsg "Is not ITUFAX.") [])
        else
          (* Create compressor *)
          let cinfo := {| in_color_space := JCS_RGB;
                          markers_written := []; lines_written := [] |} in
          match start_decompress dec with
          | Fatal message => ret (failed (escaped message max_emsg_bytes) [])
          | Returned _ =>
          match start_compress enc with
          | Fatal message => ret (failed (escaped message max_emsg_bytes) [])
          | Returned _ =>
              if negb (malloc_in_ok env) then ret (failed emsg [])
              else if negb (malloc_out_ok env) then ret (failed emsg [])
              else
                let scan_line_out :=
                  malloc (image_width hdr * num_components hdr) in
                s <- get_params ;;
                match itulab_to_jpeg_lines (read_scanlines dec) enc s
                        (image_width hdr) scan_line_out cinfo with
                | (cinfo, Some message) =>
                    ret (failed (escaped message max_emsg_bytes)
                                (lines_written cinfo))
                | (cinfo, None) =>
                    match finish_decompress dec with
                    | Fatal message =>
                        ret (failed (escaped message max_emsg_bytes)
                                    (lines_written cinfo))
                    | Returned _ =>
                    match finish_compress enc cinfo with
                    | Fatal message =>
                        ret (failed (escaped message max_emsg_bytes)
                                    (lines_written cinfo))
                    | Returned outptr =>
                        ret {| jpeg_ret := TRUE; jpeg_emsg := emsg;
                               jpeg_dst := Some outptr;
                               jpeg_lines := lines_written cinfo |}
                    end
                    end
                end
          end
          end
    end.

(** [lab_to_srgb] writing at [dst + pos]. *)
Definition lab_to_srgb_at (s : lab_params_t) (dst : list Z) (pos : Z)
    (scan_line_in : list Z) (pixels : Z) : list Z :=
  firstn (Z.to_nat pos) dst
    ++ lab_to_srgb linear_to_sRGB s (advance dst (Z.to_nat pos))
                   scan_line_in pixels.

(** The [for] loop of [t42_itulab_to_srgb]: the buffer, [pos], the number
    of lines converted, and the message of the codec if it stopped the
    loop. *)
Fixpoint itulab_to_srgb_lines (rows : list (outcome (list Z)))
    (s : lab_params_t) (output_width stride : Z) (dst : list Z) (pos : Z)
    (done : nat) : list Z * Z * nat * option string :=
  match rows with
  | [] => (dst, pos, done, None)
  | Fatal message :: _ => (dst, pos, done, Some message)
  | Returned scan_line_in :: rest =>
      let dst := lab_to_srgb_at s dst pos scan_line_in (sint32 output_width) in
      itulab_to_srgb_lines rest s output_width stride dst (pos + stride)
                           (S done)
  end.

Definition t42_itulab_to_srgb (env : libc) (dec : decoder) (dst : list Z)
    (max_emsg_bytes : Z) : M to_srgb_result :=
  let emsg := EmptyString in
  let failed emsg dst width height lines :=
    {| srgb_ret := FALSE; srgb_emsg := emsg; srgb_dst := dst;
       srgb_dstlen := None; srgb_width := width; srgb_height := height;
       srgb_lines := lines |} in
  if negb (fmemopen_ok env) then
    ret (failed (strcpy_if_empty emsg "Failed to fmemopen().") dst None None O)
  else if negb (fseek_ok env) then
    (* Rewind the file *)
    ret (failed emsg dst None None O)
  else
    printf (Print_trace 10) ;;
    (* Take the header *)
    match read_header dec with
    | Fatal message =>
        ret (failed (escaped message max_emsg_bytes) dst None None O)
    | Returned hdr =>
        printf (Print_trace 11) ;;
        printf (Print_trace 12) ;;
        (* Sanity check and parameter check *)
        ok <- isITUfax (marker_list hdr) ;;
        let emsg :=
          if negb (truth ok) then strcpy_if_empty emsg "Is not ITUFAX."
          (* return FALSE; is commented out *)
          else emsg in
        printf (Print_trace 13) ;;
        (* Copy size, resolution, etc *)
        let width := Some (image_width hdr) in
        let height := Some (image_height hdr) in
        match start_decompress dec with
        | Fatal message =>
            ret (failed (escaped message max_emsg_bytes) dst width height O)
        | Returned _ =>
            if negb (malloc_in_ok env) then ret (failed emsg dst width height O)
            else
              s <- get_params ;;
              match itulab_to_srgb_lines (read_scanlines dec) s
                      (image_width hdr)
                      (image_width hdr * num_components hdr) dst 0 O with
              | (dst, pos, lines, Some message) =>
                  ret (failed (escaped message max_emsg_bytes) dst width
                              height lines)
              | (dst, pos, lines, None) =>
                  match finish_decompress dec with
                  | Fatal message =>
                      ret (failed (escaped message max_emsg_bytes) dst width
                                  height lines)
                  | Returned _ =>
                      ret {| srgb_ret := TRUE; srgb_emsg := emsg;
                             srgb_dst := dst; srgb_dstlen := Some pos;
                             srgb_width := width; srgb_height := height;
                             srgb_lines := lines |}
                  end
              end
        end
    end.

End Bridge.

(** ** Notions used in the statements *)

(** [floor(v)] clamped to [0, 255], for a binary32 [v]: what the
    specification asks the stored code to be.  On the values that are not
    numbers the clamp is the one of the extended reals; a NaN gives 255. *)
Definition clamp_floor (v : float) : Z :=
  match v with
  | S754_nan => 255
  | S754_infinity true => 0
  | S754_infinity false => 255
  | _ => Z.max 0 (Z.min 255 (Qfloor (F32.F2Q v)))
  end.

(** The value [lab_to_itu] quantises on a channel: the binary32 quotient of
    the coordinate by the range, plus the offset. *)
Definition scaled (x range offset : float) : float :=
  F32.add (F32.div x range) offset.

(** A parameter object as it is created: every field zero. *)
Definition lab_params_zero : lab_params_t :=
  {| range_L := F32.zero; range_a := F32.zero; range_b := F32.zero;
     offset_L := F32.zero; offset_a := F32.zero; offset_b := F32.zero;
     ab_are_signed := 0; x_n := F32.zero; y_n := F32.zero; z_n := F32.zero |}.

(** A compressor on which nothing has been written yet. *)
Definition fresh_compressor (colour_space : Z) : compressor :=
  {| in_color_space := colour_space; markers_written := []; lines_written := [] |}.

(** The payload [SetITUFax] hands to [jpeg_write_marker]. *)
Definition ITUFax_payload : list Z :=
  [chr "G"; chr "3"; chr "F"; chr "A"; chr "X"; 0; 7; 202; 0; 200].

(** The call into libjpeg came back. *)
Definition returned {A} (o : outcome A) : bool :=
  match o with
  | Returned _ => true
  | Fatal _ => false
  end.

(** *** The tables and the cube root

    [cielab_luts.h] is not part of the source, and neither is the C
    library.  The three functions below follow the formulas the
    specification gives for them; the real-valued powers and roots are
    evaluated with 60 fractional bits through integer roots. *)

Module Tables.

(** Largest [r] below [2^k] with [r^n <= N], one bit at a time. *)
Fixpoint iroot_bits (k : nat) (n N r : Z) : Z :=
  match k with
  | O => r
  | S k' =>
      let r' := r + 2 ^ Z.of_nat k' in
      iroot_bits k' n N (if r' ^ n <=? N then r' else r)
  end.

(** The integer part of the [n]-th root of [N]. *)
Definition iroot (n N : Z) : Z :=
  iroot_bits (Z.to_nat (Z.log2 N / n + 1)) n N 0.

Definition frac_bits : Z := 60.

(** [floor (2^60 * q)] and [floor (2^60 * q^(a/b))] for a rational
    [q >= 0]. *)
Definition fixed (q : Q) : Z := Qfloor (q * inject_Z (2 ^ frac_bits)).

Definition pow_frac (q : Q) (a b : Z) : Z :=
  iroot b ((Qnum q ^ a * 2 ^ (b * frac_bits)) / Zpos (Qden q) ^ a).

(** The binary32 nearest to [n / 2^60]. *)
Definition to_float (n : Z) : float :=
  binary_normalize F32.prec F32.emax n (- frac_bits) false.

(** Modelled from the spec: the table [sRGB_to_linear] of
    [cielab_luts.h], 256 entries, is missing.  Entry [i] is the standard
    sRGB inverse gamma of [v = i/255]:
    [v <= 0.04045 ? v/12.92 : ((v + 0.055)/1.055)^2.4]. *)
Definition sRGB_to_linear (i : Z) : float :=
  let v := (inject_Z i / 255)%Q in
  if Qle_bool v (4045 # 100000)
  then to_float (fixed (v / (1292 # 100)))
  else to_float (pow_frac ((v + (55 # 1000)) / (1055 # 1000)) 12 5).

(** Modelled from the spec: the table [linear_to_sRGB] of
    [cielab_luts.h], 4096 entries, is missing.  Entry [k] is the gamma
    re-encoding of the linear value [v = k/4096],
    [v > 0.0031308 ? 1.055 * v^(1/2.4) - 0.055 : v * 12.92], scaled to
    [0, 255], rounded down as in the branch of the source without tables,
    and clamped. *)
Definition linear_to_sRGB (k : Z) : Z :=
  let v := (inject_Z k / 4096)%Q in
  let g :=
    if Qle_bool v (31308 # 10000000)
    then fixed (v * (1292 # 100))
    else (1055 * pow_frac v 5 12) / 1000 - fixed (55 # 1000) in
  let c := (255 * g) / 2 ^ frac_bits in
  if c <? 0 then 0 else if c <=? 255 then c else 255.

(** Modelled from the spec: [cbrtf] belongs to the C library, which is
    missing.  It is the cube root, [cbrt(t)] in the specification, here
    rounded to the nearest binary32. *)
Definition cbrtf (x : float) : float :=
  match x with
  | S754_finite s m e =>
      let e' := (e - 78) / 3 in
      let N := Zpos m * 2 ^ (e - 3 * e') in
      let r := iroot 3 N in
      let sticky := if r ^ 3 =? N then 0 else 1 in
      binary_normalize F32.prec F32.emax (cond_Zopp s (2 * r + sticky))
                       (e' - 1) s
  | _ => x
  end.

End Tables.

(** *** The round trip *)

(** The gamut of T.42 (L* in [0, 100], a* in [-85, 85], b* in [-75, 125],
    unsigned) with the D50 white point. *)
Definition T42_D50 : lab_params_t :=
  set_lab_illuminant
    (set_lab_gamut lab_params_zero 0 100 (-85) 85 (-75) 125 0)
    (F32.lit 96422 1000) (F32.of_int 100) (F32.lit 82521 1000).

(** One pixel through [srgb_to_lab] and back through [lab_to_srgb]. *)
Definition round_trip (sRGB_to_linear : Z -> float) (linear_to_sRGB : Z -> Z)
    (cbrtf : float -> float) (s : lab_params_t) (x : list Z) : list Z :=
  lab_to_srgb linear_to_sRGB s [0; 0; 0]
    (srgb_to_lab sRGB_to_linear cbrtf s [0; 0; 0] x 1) 1.

(** The arguments the source hands to [cbrtf] or to the linear branch for a
    pixel: the normalised X, Y and Z. *)
Definition xyz_of (sRGB_to_linear : Z -> float) (s : lab_params_t)
    (x : list Z) : float * float * float :=
  normalised_xyz s (sRGB_to_linear (peek x 0)) (sRGB_to_linear (peek x 1))
                 (sRGB_to_linear (peek x 2)).

Definition is_pixel (x : list Z) : Prop := length x = 3%nat /\ Forall is_uint8 x.

(** A number that is not zero, and a number above zero. *)
Definition nonzero (x : float) : Prop :=
  F32.is_finite x = true /\ F32.is_zero x = false.
Definition positive_number (x : float) : Prop :=
  F32.is_finite x = true /\ F32.gtb x F32.zero = true.

(** Non-zero ranges and a positive white point. *)
Definition properly_configured (s : lab_params_t) : Prop :=
  nonzero (range_L s) /\ nonzero (range_a s) /\ nonzero (range_b s) /\
  positive_number (x_n s) /\ positive_number (y_n s) /\
  positive_number (z_n s).

(** Every channel of [y] is within [k] of the channel of [x]. *)
Definition within (k : Z) (x y : list Z) : Prop :=
  Z.abs (peek y 0 - peek x 0) <= k /\ Z.abs (peek y 1 - peek x 1) <= k /\
  Z.abs (peek y 2 - peek x 2) <= k.

(** [c] is the binary32 nearest to the cube root of [x]: the cube root lies
    strictly within half a unit in the last place of [c], the unit being
    [2^e]. *)
Definition nearest_cube_root (x c : float) (e : Z) : Prop :=
  let half := (inject_Z 1 / inject_Z (2 ^ (1 - e)))%Q in
  let lo := (F32.F2Q c - half)%Q in
  let hi := (F32.F2Q c + half)%Q in
  (lo * lo * lo < F32.F2Q x /\ F32.F2Q x < hi * hi * hi)%Q.

(** C3 as it is stated, for given tables and cube root. *)
Definition round_trip_claim (sRGB_to_linear : Z -> float)
    (linear_to_sRGB : Z -> Z) (cbrtf : float -> float) : Prop :=
  forall x s, is_pixel x -> properly_configured s ->
    within 2 x (round_trip sRGB_to_linear linear_to_sRGB cbrtf s x).

(** *** Sample inputs *)

Definition world_zero : world := {| params := lab_params_zero; stdout := [] |}.

(** The gamut of T.42 with signed a* and b*. *)
Definition T42_signed : lab_params_t :=
  set_lab_gamut lab_params_zero 0 100 (-85) 85 (-75) 125 1.

(** L* = 50, a* = 0, b* = -1000. *)
Definition sample_lab : cielab_t :=
  cielab.make (F32.of_int 50) (F32.of_int 0) (F32.of_int (-1000)).

Definition sample_gamut_code : list Z := [0; 1; 0; 2; 0; 3; 0; 4; 0; 5; 1; 6].

(** A JFIF stream without any G3FAX segment: one APP0 segment, a picture
    of one pixel. *)
Definition plain_jpeg : decoder :=
  {| read_header :=
       Returned {| marker_list :=
                     [ {| marker := JPEG_APP0; original_length := 5;
                          data_length := 5;
                          data := [chr "J"; chr "F"; chr "I"; chr "F"; 0] |} ];
                   image_width := 1; image_height := 1; num_components := 3 |};
     start_decompress := Returned tt;
     read_scanlines := [Returned [10; 128; 96]];
     finish_decompress := Returned tt |}.

Definition plain_header : jpeg_header :=
  {| marker_list :=
       [ {| marker := JPEG_APP0; original_length := 5; data_length := 5;
            data := [chr "J"; chr "F"; chr "I"; chr "F"; 0] |} ];
     image_width := 1; image_height := 1; num_components := 3 |}.

Definition libc_ok : libc :=
  {| fmemopen_ok := true; open_memstream_ok := true; fseek_ok := true;
     malloc_in_ok := true; malloc_out_ok := true |}.

(** A compressor that accepts everything and produces an empty stream. *)
Definition null_encoder : encoder :=
  {| start_compress := Returned tt;
     write_scanlines := fun _ _ => Returned tt;
     finish_compress := fun _ => Returned [] |}.

(** A byte read as a [signed char]. *)
Definition int8 (z : Z) : Z := if z <? 128 then z else z - 256.

(** The 16-bit number whose high byte is [hi] and low byte is [lo]. *)
Definition big_endian (hi lo : Z) : Z := 256 * hi + lo.

Definition f255 : float := F32.of_int 255.

(** The payload starts with the five letters. *)
Definition starts_with_G3FAX (d : list Z) : Prop :=
  peek d 0 = chr "G" /\ peek d 1 = chr "3" /\ peek d 2 = chr "F" /\
  peek d 3 = chr "A" /\ peek d 4 = chr "X".

(** A segment that makes [isITUfax] answer true: an APP1 segment of at
    least six bytes, tagged, of sub-type 0, 1 or 2. *)
Definition recognised (m : jpeg_marker) : Prop :=
  marker m = JPEG_APP0 + 1 /\ 6 <= data_length m /\
  starts_with_G3FAX (data m) /\
  (peek (data m) 5 = 0 \/ peek (data m) 5 = 1 \/ peek (data m) 5 = 2).

(** The four bytes of [code] are those of the tag of [e]. *)
Definition same_tag (code : list Z) (e : illuminant_t) : Prop :=
  peek code 0 = peek (tag e) 0 /\ peek code 1 = peek (tag e) 1 /\
  peek code 2 = peek (tag e) 2 /\ peek code 3 = peek (tag e) 3.

(** The entries the search loop can reach: those before the one with the
    empty name. *)
Fixpoint catalog (tbl : list illuminant_t) : list illuminant_t :=
  match tbl with
  | [] => []
  | e :: rest => if name_is_empty e then [] else e :: catalog rest
  end.

(** The tag of CIE D65/2° in the table. *)
Definition D65_code : list Z := [0; chr "D"; chr "6"; chr "5"].

(** *** Rounding to nearest

    What the binary32 operations compute is related to the rationals they
    stand for by the following notions. *)

Definition pow2 (e : Z) : Q := (2 ^ e)%Q.

(** Where [w] lies in the interval from [m] to [m + 1]: on [m], below the
    middle, on it, or above it. *)
Definition position (m : Z) (l : location) (w : Q) : Prop :=
  match l with
  | loc_Exact => (w == inject_Z m)%Q
  | loc_Inexact Lt => (inject_Z m < w /\ w < inject_Z m + (1 # 2))%Q
  | loc_Inexact Eq => (w == inject_Z m + (1 # 2))%Q
  | loc_Inexact Gt => (inject_Z m + (1 # 2) < w /\ w < inject_Z m + 1)%Q
  end.

(** [v], divided by [2^e], lies at [l] in the interval from [m] to [m + 1]. *)
Definition located (m e : Z) (l : location) (v : Q) : Prop :=
  position m l (v * pow2 (- e)).

(** The magnitude of a quotient of two finite numbers. *)
Definition quotient (mx : positive) (ex : Z) (my : positive) (ey : Z) : Q :=
  (inject_Z (Zpos mx) * pow2 ex / (inject_Z (Zpos my) * pow2 ey))%Q.

(** [z] is a binary32 number nearest to the rational [v]: within half a unit
    in the last place when finite, and zero or infinite only when [v] is
    below the smallest or beyond the finite numbers. *)
Definition nearest (v : Q) (z : float) : Prop :=
  match z with
  | S754_finite _ _ e => (Qabs (F32.F2Q z - v) <= pow2 (e - 1))%Q
  | S754_zero _ => (Qabs v <= pow2 (-150))%Q
  | S754_infinity _ => (pow2 104 <= Qabs v)%Q
  | S754_nan => False
  end.

(** Bounds of a channel that differ and convert to [float] without
    rounding. *)
Definition exact_bounds (lo hi : Z) : Prop :=
  lo <> hi /\ Z.abs lo < 2 ^ 24 /\ Z.abs (hi - lo) < 2 ^ 24.

(** ** Facts on binary32 *)

Module F32Facts.
Import F32.

Lemma fexp_eq (x : Z) : fexp prec emax x = Z.max (x - 24) (-149).
Proof. reflexivity. Qed.

Lemma digits2_pos_iter_xO (p n : positive) :
  digits2_pos (Pos.iter xO p n) = (digits2_pos p + n)%positive.
Proof.
  induction n as [|n IH] using Pos.peano_ind.
  - simpl. lia.
  - rewrite Pos.iter_succ. simpl. rewrite IH. lia.
Qed.

Lemma iter_xO_value (p n : positive) :
  Zpos (Pos.iter xO p n) = Zpos p * 2 ^ Zpos n.
Proof.
  induction n as [|n IH] using Pos.peano_ind.
  - simpl. lia.
  - rewrite Pos.iter_succ, (Pos2Z.inj_xO (Pos.iter xO p n)), IH, Pos2Z.inj_succ, Z.pow_succ_r by lia.
    ring.
Qed.

Lemma digits2_pos_bounds (m : positive) :
  2 ^ (Zpos (digits2_pos m) - 1) <= Zpos m < 2 ^ Zpos (digits2_pos m).
Proof.
  induction m as [m IH|m IH|]; simpl digits2_pos.
  - rewrite Pos2Z.inj_succ, (Pos2Z.inj_xI m).
    replace (Z.succ (Zpos (digits2_pos m)) - 1) with (Z.succ (Zpos (digits2_pos m) - 1)) by lia.
    rewrite !Z.pow_succ_r by lia. lia.
  - rewrite Pos2Z.inj_succ, (Pos2Z.inj_xO m).
    replace (Z.succ (Zpos (digits2_pos m)) - 1) with (Z.succ (Zpos (digits2_pos m) - 1)) by lia.
    rewrite !Z.pow_succ_r by lia. lia.
  - simpl. lia.
Qed.

Lemma shr_fexp_canonical (m : positive) (e : Z) (l : location) :
  Zpos (digits2_pos m) = 24 -> -149 <= e ->
  shr_fexp prec emax (Zpos m) e l = (shr_record_of_loc (Zpos m) l, e).
Proof.
  intros Hd He. unfold shr_fexp. rewrite fexp_eq.
  change (Zdigits2 (Zpos m)) with (Zpos (digits2_pos m)). rewrite Hd.
  replace (Z.max (24 + e - 24) (-149) - e) with 0 by lia.
  reflexivity.
Qed.

Lemma binary_round_aux_exact (s : bool) (m : positive) (e : Z) :
  Zpos (digits2_pos m) = 24 -> -149 <= e <= 104 ->
  binary_round_aux prec emax s (Zpos m) e loc_Exact = S754_finite s m e.
Proof.
  intros Hd He. unfold binary_round_aux.
  rewrite shr_fexp_canonical by lia.
  cbn [shr_record_of_loc shr_m loc_of_shr_record round_nearest_even].
  rewrite shr_fexp_canonical by lia.
  cbn [shr_record_of_loc shr_m].
  replace (e <=? emax - prec) with true; [reflexivity|].
  symmetry. apply Z.leb_le. unfold emax, prec. lia.
Qed.

(** Integers below [2^24] convert exactly. *)
Lemma binary_round_small (s : bool) (p : positive) :
  Zpos (digits2_pos p) <= 24 ->
  exists m e,
    binary_round prec emax s p 0 = S754_finite s m e /\
    Zpos (digits2_pos m) = 24 /\ e = Zpos (digits2_pos p) - 24 /\
    Zpos m = Zpos p * 2 ^ (- e).
Proof.
  intros Hd.
  unfold binary_round. rewrite fexp_eq.
  set (d := Zpos (digits2_pos p)) in *.
  assert (Hd1 : 1 <= d) by (unfold d; lia).
  replace (Z.max (d + 0 - 24) (-149)) with (d - 24) by lia.
  unfold shl_align.
  destruct (d - 24 - 0) as [|q|q] eqn:Hq; try lia.
  - exists p, 0. rewrite binary_round_aux_exact by (fold d; lia).
    repeat split; try lia.
  - exists (Pos.iter xO p q), (d - 24).
    assert (Hdq : Zpos (digits2_pos (Pos.iter xO p q)) = 24).
    { rewrite digits2_pos_iter_xO. fold d in Hq |- *. lia. }
    rewrite binary_round_aux_exact by lia.
    repeat split; try lia.
    rewrite iter_xO_value. f_equal. f_equal. lia.
Qed.

(** *** Digits *)

Lemma Zdigits2_nonneg (m : Z) : 0 <= Zdigits2 m.
Proof. destruct m; simpl; lia. Qed.

Lemma Zdigits2_bounds (m : Z) :
  0 < m -> 2 ^ (Zdigits2 m - 1) <= m < 2 ^ Zdigits2 m.
Proof.
  destruct m as [|p|p]; try lia. intros _. apply digits2_pos_bounds.
Qed.

Lemma Zdigits2_unique (m d : Z) :
  0 < m -> 2 ^ (d - 1) <= m < 2 ^ d -> Zdigits2 m = d.
Proof.
  intros Hm [Hlo Hhi].
  destruct (Zdigits2_bounds m Hm) as [Dlo Dhi].
  pose proof (Zdigits2_nonneg m) as Dnn.
  assert (0 < d).
  { destruct (Z.lt_trichotomy d 0) as [Hd|[Hd|Hd]]; trivial.
    - rewrite Z.pow_neg_r in Hhi by lia. lia.
    - subst d. simpl in Hhi. lia. }
  assert (d - 1 < Zdigits2 m).
  { apply (Z.pow_lt_mono_r_iff 2); lia. }
  assert (Zdigits2 m - 1 < d).
  { apply (Z.pow_lt_mono_r_iff 2); lia. }
  lia.
Qed.

Lemma Zdigits2_lower (m k : Z) : 0 <= k -> 2 ^ k <= m -> k + 1 <= Zdigits2 m.
Proof.
  intros Hk Hm.
  assert (0 < m) by (pose proof (Z.pow_pos_nonneg 2 k); lia).
  destruct (Zdigits2_bounds m H) as [_ Dhi].
  pose proof (Zdigits2_nonneg m).
  assert (k < Zdigits2 m); [|lia].
  apply (Z.pow_lt_mono_r_iff 2); lia.
Qed.

Lemma Zdigits2_div_pow2 (m n : Z) :
  0 <= n -> 2 ^ n <= m -> Zdigits2 (m / 2 ^ n) = Zdigits2 m - n.
Proof.
  intros Hn Hm.
  assert (H2n : 0 < 2 ^ n) by (apply Z.pow_pos_nonneg; lia).
  assert (Hm0 : 0 < m) by lia.
  destruct (Zdigits2_bounds m Hm0) as [Dlo Dhi].
  pose proof (Zdigits2_lower m n Hn Hm) as Hd.
  assert (Hq : 0 < m / 2 ^ n) by (apply Z.div_str_pos; lia).
  apply Zdigits2_unique; trivial.
  split.
  - apply Z.div_le_lower_bound; trivial.
    rewrite <- Z.pow_add_r by lia.
    replace (n + (Zdigits2 m - n - 1)) with (Zdigits2 m - 1) by lia. trivial.
  - apply Z.div_lt_upper_bound; trivial.
    rewrite <- Z.pow_add_r by lia.
    replace (n + (Zdigits2 m - n)) with (Zdigits2 m) by lia. trivial.
Qed.

Lemma Zdigits2_succ (m : Z) :
  0 <= m ->
  Zdigits2 (m + 1) = Zdigits2 m \/
  (Zdigits2 (m + 1) = Zdigits2 m + 1 /\ m + 1 = 2 ^ Zdigits2 m).
Proof.
  intros Hm.
  destruct (Z.eq_dec m 0) as [->|Hne].
  { right. split; reflexivity. }
  assert (Hm0 : 0 < m) by lia.
  destruct (Zdigits2_bounds m Hm0) as [Dlo Dhi].
  pose proof (Zdigits2_lower m 0) as Hd.
  assert (1 <= Zdigits2 m) by (apply Hd; simpl; lia).
  destruct (Z.eq_dec (m + 1) (2 ^ Zdigits2 m)) as [He|He].
  - right. split; trivial.
    apply Zdigits2_unique; try lia.
    replace (Zdigits2 m + 1 - 1) with (Zdigits2 m) by lia.
    rewrite Z.pow_add_r by lia. simpl (2 ^ 1). lia.
  - left. apply Zdigits2_unique; lia.
Qed.

(** *** Shifting right *)

Lemma shr_1_m (r : shr_record) :
  0 <= shr_m r -> shr_m (shr_1 r) = shr_m r / 2.
Proof.
  destruct r as [m r s]. simpl. intros Hm.
  rewrite <- Z.div2_div.
  destruct m as [|[p|p|]|p]; try lia; reflexivity.
Qed.

Lemma shr_1_nonneg (r : shr_record) : 0 <= shr_m r -> 0 <= shr_m (shr_1 r).
Proof.
  intros H. rewrite shr_1_m by trivial. apply Z.div_pos; lia.
Qed.

Lemma pow2_xO (n : positive) : 2 ^ Zpos n~0 = 2 ^ Zpos n * 2 ^ Zpos n.
Proof.
  rewrite (Pos2Z.inj_xO n).
  replace (2 * Zpos n) with (Zpos n + Zpos n) by lia.
  apply Z.pow_add_r; lia.
Qed.

Lemma pow2_xI (n : positive) : 2 ^ Zpos n~1 = 2 * (2 ^ Zpos n * 2 ^ Zpos n).
Proof.
  rewrite (Pos2Z.inj_xI n).
  replace (2 * Zpos n + 1) with (1 + (Zpos n + Zpos n)) by lia.
  rewrite (Z.pow_add_r 2 1), Z.pow_add_r by lia. reflexivity.
Qed.

Lemma iter_shr_1_m (n : positive) :
  forall r, 0 <= shr_m r ->
    shr_m (iter_pos shr_1 n r) = shr_m r / 2 ^ Zpos n.
Proof.
  assert (Hp : forall k, 0 < 2 ^ Zpos k) by (intros; apply Z.pow_pos_nonneg; lia).
  induction n as [n IH|n IH|]; intros r Hr; simpl iter_pos.
  - assert (H1 : 0 <= shr_m (shr_1 r)) by (apply shr_1_nonneg; trivial).
    assert (H2 : 0 <= shr_m (iter_pos shr_1 n (shr_1 r))).
    { rewrite IH by trivial. apply Z.div_pos; [trivial|apply Hp]. }
    rewrite IH, IH, shr_1_m by trivial.
    pose proof (Hp n).
    rewrite !Z.div_div by lia.
    rewrite pow2_xI. reflexivity.
  - assert (H2 : 0 <= shr_m (iter_pos shr_1 n r)).
    { rewrite IH by trivial. apply Z.div_pos; [trivial|apply Hp]. }
    rewrite IH, IH by trivial.
    pose proof (Hp n).
    rewrite !Z.div_div by lia.
    rewrite pow2_xO. reflexivity.
  - rewrite shr_1_m by trivial. reflexivity.
Qed.

(** *** Every rounded result is a binary32 number *)

Lemma fexp_mono (x y : Z) : x <= y -> fexp prec emax x <= fexp prec emax y.
Proof. rewrite !fexp_eq. lia. Qed.

Lemma shr_record_of_loc_m (m : Z) (l : location) :
  shr_m (shr_record_of_loc m l) = m.
Proof. destruct l as [|[ | | ]]; reflexivity. Qed.

Lemma shr_fexp_spec (m e : Z) (l : location) :
  0 <= m -> e <= fexp prec emax (Zdigits2 m + e) ->
  0 <= shr_m (fst (shr_fexp prec emax m e l)) /\
  canonical (shr_m (fst (shr_fexp prec emax m e l)))
            (snd (shr_fexp prec emax m e l)).
Proof.
  intros Hm He. unfold shr_fexp, shr.
  destruct (fexp prec emax (Zdigits2 m + e) - e) as [|p|p] eqn:Hn; try lia.
  - simpl fst. simpl snd. rewrite shr_record_of_loc_m.
    split; trivial. unfold canonical. lia.
  - simpl fst. simpl snd.
    rewrite iter_shr_1_m by (rewrite shr_record_of_loc_m; trivial).
    rewrite shr_record_of_loc_m.
    assert (H2p : 0 < 2 ^ Zpos p) by (apply Z.pow_pos_nonneg; lia).
    split; [apply Z.div_pos; lia|].
    unfold canonical.
    destruct (Z_le_gt_dec (2 ^ Zpos p) m) as [Hle|Hgt].
    + rewrite Zdigits2_div_pow2 by lia.
      replace (Zdigits2 m - Zpos p + (e + Zpos p)) with (Zdigits2 m + e) by lia.
      lia.
    + rewrite Z.div_small by lia. simpl Zdigits2.
      assert (HD : Zdigits2 m <= Zpos p).
      { destruct (Z.eq_dec m 0) as [->|Hne]; [simpl; lia|].
        assert (Hm0 : 0 < m) by lia.
        destruct (Zdigits2_bounds m Hm0) as [Dlo _].
        pose proof (Zdigits2_nonneg m).
        assert (Zdigits2 m - 1 < Zpos p); [|lia].
        apply (Z.pow_lt_mono_r_iff 2); lia. }
      rewrite fexp_eq in Hn |- *. lia.
Qed.

Lemma round_nearest_even_cases (m : Z) (l : location) :
  round_nearest_even m l = m \/ round_nearest_even m l = m + 1.
Proof.
  destruct l as [|[ | | ]]; simpl; auto. destruct (Z.even m); auto.
Qed.

Lemma Zdigits2_mono_succ (m : Z) : 0 <= m -> Zdigits2 m <= Zdigits2 (m + 1).
Proof. intros Hm. destruct (Zdigits2_succ m Hm) as [H|[H _]]; lia. Qed.

Lemma binary_round_aux_valid (sx : bool) (mx ex : Z) (lx : location) :
  0 <= mx -> ex <= fexp prec emax (Zdigits2 mx + ex) ->
  valid (binary_round_aux prec emax sx mx ex lx) = true.
Proof.
  intros Hm He. unfold binary_round_aux.
  destruct (shr_fexp_spec mx ex lx Hm He) as [Hm' Hc'].
  destruct (shr_fexp prec emax mx ex lx) as [mrs' e'].
  simpl fst in *. simpl snd in *.
  set (m1 := round_nearest_even (shr_m mrs') (loc_of_shr_record mrs')).
  assert (Hm1 : 0 <= m1 /\ Zdigits2 (shr_m mrs') <= Zdigits2 m1).
  { unfold m1.
    destruct (round_nearest_even_cases (shr_m mrs') (loc_of_shr_record mrs')) as [->| ->].
    - lia.
    - split; [lia|]. apply Zdigits2_mono_succ; trivial. }
  destruct Hm1 as [Hm1 Hd1].
  assert (He1 : e' <= fexp prec emax (Zdigits2 m1 + e')).
  { unfold canonical in Hc'. rewrite <- Hc' at 1. apply fexp_mono. lia. }
  destruct (shr_fexp_spec m1 e' loc_Exact Hm1 He1) as [Hm'' Hc''].
  destruct (shr_fexp prec emax m1 e' loc_Exact) as [mrs'' e''].
  simpl fst in *. simpl snd in *.
  destruct (shr_m mrs'') as [|m|m] eqn:Hmm; try reflexivity.
  destruct (e'' <=? emax - prec) eqn:Hle; try reflexivity.
  unfold valid, valid_binary, bounded, canonical_mantissa.
  rewrite Hle, andb_true_r. apply Z.eqb_eq. exact Hc''.
Qed.

Lemma binary_round_valid (s : bool) (m : positive) (e : Z) :
  valid (binary_round prec emax s m e) = true.
Proof.
  unfold binary_round, shl_align.
  set (F := fexp prec emax (Zpos (digits2_pos m) + e)).
  destruct (F - e) as [|d|d] eqn:Hd.
  - apply binary_round_aux_valid; [lia|]. simpl Zdigits2. fold F. lia.
  - apply binary_round_aux_valid; [lia|]. simpl Zdigits2. fold F. lia.
  - apply binary_round_aux_valid; [lia|]. simpl Zdigits2.
    rewrite digits2_pos_iter_xO.
    replace (Zpos (digits2_pos m + d) + F) with (Zpos (digits2_pos m) + e) by lia.
    fold F. lia.
Qed.

Lemma binary_normalize_valid (m e : Z) (sz : bool) :
  valid (binary_normalize prec emax m e sz) = true.
Proof.
  destruct m; simpl; [reflexivity| |]; apply binary_round_valid.
Qed.

Lemma of_int_valid (n : Z) : valid (of_int n) = true.
Proof. apply binary_normalize_valid. Qed.

Lemma add_valid (x y : float) :
  valid x = true -> valid y = true -> valid (add x y) = true.
Proof.
  intros Hx Hy. unfold add.
  destruct x as [sx|sx| |sx mx ex], y as [sy|sy| |sy my ey];
    try reflexivity; try assumption;
    try (destruct sx, sy; reflexivity).
  unfold SFadd. apply binary_normalize_valid.
Qed.

Lemma shiftl_cases (m sh : Z) :
  0 <= sh ->
  match sh with
  | Zpos _ => Z.shiftl m sh
  | Z0 => m
  | Zneg _ => 0
  end = m * 2 ^ sh.
Proof.
  intros Hsh. destruct sh as [|p|p]; try lia.
  apply Z.shiftl_mul_pow2. lia.
Qed.

(** The quotient and exponent [SFdiv_core_binary] hands to the rounding. *)
Lemma SFdiv_core_binary_aligned (mx : positive) (ex : Z) (my : positive) (ey : Z) :
  0 <= fst (fst (SFdiv_core_binary prec emax (Zpos mx) ex (Zpos my) ey)) /\
  snd (fst (SFdiv_core_binary prec emax (Zpos mx) ex (Zpos my) ey)) <=
    fexp prec emax
      (Zdigits2 (fst (fst (SFdiv_core_binary prec emax (Zpos mx) ex (Zpos my) ey))) +
       snd (fst (SFdiv_core_binary prec emax (Zpos mx) ex (Zpos my) ey))).
Proof.
  unfold SFdiv_core_binary.
  set (d1 := Zdigits2 (Zpos mx)). set (d2 := Zdigits2 (Zpos my)).
  set (e' := Z.min (fexp prec emax (d1 + ex - (d2 + ey))) (ex - ey)).
  set (sh := ex - ey - e').
  assert (Hsh : 0 <= sh) by (unfold sh, e'; lia).
  set (m' := match sh with Zpos _ => Z.shiftl (Zpos mx) sh | Z0 => Zpos mx | Zneg _ => 0 end).
  assert (Hm' : m' = Zpos mx * 2 ^ sh) by (apply shiftl_cases; trivial).
  clearbody m'.
  pose proof (Z_div_mod m' (Zpos my) eq_refl) as Hdm.
  destruct (Z.div_eucl m' (Zpos my)) as [q r].
  destruct Hdm as [Hq Hr]. cbn [fst snd].
  assert (H2sh : 0 < 2 ^ sh) by (apply Z.pow_pos_nonneg; lia).
  assert (Hq0 : 0 <= q) by nia.
  split; [exact Hq0|].
  transitivity (fexp prec emax (d1 + ex - (d2 + ey))); [unfold e'; lia|].
  apply fexp_mono.
  destruct (Z_le_gt_dec (d1 - d2 + sh) 0) as [Hs|Hs].
  { pose proof (Zdigits2_nonneg q). unfold sh in *. lia. }
  assert (Hk : 0 <= d1 - 1 + sh - d2) by lia.
  assert (Hqk : 2 ^ (d1 - 1 + sh - d2) <= q).
  { destruct (Zdigits2_bounds (Zpos mx)) as [Xlo _]; [lia|].
    destruct (Zdigits2_bounds (Zpos my)) as [_ Yhi]; [lia|].
    fold d1 in Xlo. fold d2 in Yhi.
    assert (Hd2 : 0 <= d2) by apply Zdigits2_nonneg.
    assert (Hd1 : 1 <= d1) by (unfold d1; simpl; lia).
    assert (Hpow : 2 ^ (d1 - 1 + sh - d2) * 2 ^ d2 = 2 ^ (d1 - 1) * 2 ^ sh).
    { rewrite <- !Z.pow_add_r by lia. f_equal. lia. }
    assert (0 < 2 ^ (d1 - 1 + sh - d2)) by (apply Z.pow_pos_nonneg; lia).
    nia. }
  pose proof (Zdigits2_lower q _ Hk Hqk). unfold sh in *. lia.
Qed.

Lemma div_valid (x y : float) : valid (div x y) = true.
Proof.
  unfold div.
  destruct x as [sx|sx| |sx mx ex], y as [sy|sy| |sy my ey]; try reflexivity.
  unfold SFdiv.
  destruct (SFdiv_core_binary_aligned mx ex my ey) as [Hq He].
  destruct (SFdiv_core_binary prec emax (Zpos mx) ex (Zpos my) ey) as [[q e'] l].
  cbn [fst snd] in Hq, He.
  apply binary_round_aux_valid; assumption.
Qed.

(** *** Values *)

Lemma Qfloor_F2Q (s : bool) (m : positive) (e : Z) :
  Qfloor (F2Q (S754_finite s m e)) = floor_int (S754_finite s m e).
Proof.
  unfold F2Q, floor_int. destruct (0 <=? e) eqn:He.
  - apply Qfloor_Z.
  - apply Z.leb_gt in He. unfold Qfloor.
    rewrite Z2Pos.id by (apply Z.pow_pos_nonneg; lia). reflexivity.
Qed.

Lemma valid_finite (s : bool) (m : positive) (e : Z) :
  valid (S754_finite s m e) = true ->
  Z.max (Zpos (digits2_pos m) + e - 24) (-149) = e /\ e <= 104.
Proof.
  unfold valid, valid_binary, bounded, canonical_mantissa.
  rewrite andb_true_iff, Z.eqb_eq, Z.leb_le, fexp_eq.
  unfold emax, prec. lia.
Qed.

Lemma digits2_pos_le (p : positive) (d : Z) :
  Zpos p < 2 ^ d -> Zpos (digits2_pos p) <= d.
Proof.
  intros Hp. destruct (digits2_pos_bounds p) as [Hlo _].
  assert (0 <= d).
  { destruct (Z_lt_le_dec d 0) as [Hd|Hd]; trivial.
    rewrite Z.pow_neg_r in Hp by trivial. lia. }
  assert (Zpos (digits2_pos p) - 1 < d); [|lia].
  apply (Z.pow_lt_mono_r_iff 2); lia.
Qed.
End F32Facts.

Module QuantiserFacts.
Import F32 F32Facts.

Lemma clamp_store_neg (v : float) :
  ltb v zero = true -> clamp_store v = 0.
Proof. intros H. unfold clamp_store. rewrite H. reflexivity. Qed.

Lemma clamp_store_big (v : float) :
  ltb v zero = false -> ltb v f256 = false -> clamp_store v = 255.
Proof. intros H0 H1. unfold clamp_store. rewrite H0, H1. reflexivity. Qed.

Lemma clamp_store_mid (v : float) :
  ltb v zero = false -> ltb v f256 = true -> clamp_store v = to_uint8 v.
Proof. intros H0 H1. unfold clamp_store. rewrite H0, H1. reflexivity. Qed.

Lemma f256_eq : f256 = S754_finite false 8388608 (-15).
Proof. reflexivity. Qed.

(** A positive integer below [2^24], once converted. *)
Lemma clamp_store_of_pos (p : positive) :
  Zpos p < 2 ^ 24 ->
  clamp_store (binary_round prec emax false p 0) = Z.min 255 (Zpos p).
Proof.
  intros Hp.
  destruct (binary_round_small false p) as (m & e & -> & Hdm & He & Hm).
  { apply digits2_pos_le. trivial. }
  destruct (digits2_pos_bounds p) as [Plo Phi].
  destruct (digits2_pos_bounds m) as [Mlo Mhi]. rewrite Hdm in Mlo, Mhi.
  set (d := Zpos (digits2_pos p)) in *.
  assert (Hd : 1 <= d <= 24).
  { split; [unfold d; lia|]. apply digits2_pos_le. trivial. }
  destruct (Z_lt_le_dec d 9) as [Hsmall|Hlarge].
  - (* below 256 *)
    assert (Hp8 : Zpos p < 256).
    { change 256 with (2 ^ 8). apply Z.lt_le_trans with (2 ^ d); trivial.
      apply Z.pow_le_mono_r; lia. }
    rewrite clamp_store_mid.
    + unfold to_uint8, to_int, trunc_int, smant, cond_Zopp.
      replace (0 <=? e) with false by (symmetry; apply Z.leb_gt; lia).
      rewrite Hm, Z.quot_mul by (apply Z.pow_nonzero; lia).
      replace ((INT_MIN <=? Zpos p) && (Zpos p <=? INT_MAX)) with true.
      * unfold uint8. rewrite Z.mod_small by lia. lia.
      * symmetry. apply andb_true_iff. unfold INT_MIN, INT_MAX.
        split; apply Z.leb_le; lia.
    + reflexivity.
    + rewrite f256_eq. unfold ltb, SFltb, SFcompare.
      replace (e ?= -15) with Lt; [reflexivity|].
      symmetry. apply Z.compare_lt_iff. lia.
  - (* 256 and above *)
    assert (Hp8 : 256 <= Zpos p).
    { change 256 with (2 ^ 8). apply Z.le_trans with (2 ^ (d - 1)); trivial.
      apply Z.pow_le_mono_r; lia. }
    rewrite clamp_store_big; [lia|reflexivity|].
    rewrite f256_eq. unfold ltb, SFltb, SFcompare.
    destruct (Z.compare_spec e (-15)) as [E|E|E]; try reflexivity; try lia.
    assert (Hge : (8388608 <= m)%positive).
    { assert (Zpos m >= 8388608); [|lia].
      rewrite Hm, E. change (2 ^ (- -15)) with 32768. lia. }
    rewrite Pos.compare_cont_spec. simpl Pos.switch_Eq.
    destruct (Pos.compare_spec m 8388608); try reflexivity. lia.
Qed.

Lemma clamp_store_of_neg (p : positive) :
  Zpos p < 2 ^ 24 ->
  clamp_store (binary_round prec emax true p 0) = 0.
Proof.
  intros Hp.
  destruct (binary_round_small true p) as (m & e & -> & _).
  { apply digits2_pos_le. trivial. }
  apply clamp_store_neg. reflexivity.
Qed.

(** The stored byte is the floor of the value, clamped. *)
Lemma clamp_store_floorf (v : float) :
  valid v = true -> clamp_store (floorf v) = clamp_floor v.
Proof.
  intros Hv. destruct v as [s|s| |s m e].
  - destruct s; reflexivity.
  - destruct s; reflexivity.
  - reflexivity.
  - destruct (valid_finite _ _ _ Hv) as [Hc He].
    destruct (digits2_pos_bounds m) as [Mlo Mhi].
    set (d := Zpos (digits2_pos m)) in *.
    assert (Hd1 : 1 <= d) by (unfold d; lia).
    unfold clamp_floor. rewrite Qfloor_F2Q.
    unfold floorf, floor_int. destruct (0 <=? e) eqn:He0.
    + apply Z.leb_le in He0.
      assert (Hd : d = 24) by lia. rewrite Hd in Mlo.
      change (2 ^ (24 - 1)) with 8388608 in Mlo.
      assert (H2e : 1 <= 2 ^ e).
      { pose proof (Z.pow_pos_nonneg 2 e). lia. }
      destruct s; unfold smant, cond_Zopp.
      * rewrite clamp_store_neg by reflexivity. nia.
      * rewrite clamp_store_big.
        -- nia.
        -- reflexivity.
        -- rewrite f256_eq. unfold ltb, SFltb, SFcompare.
           replace (e ?= -15) with Gt; [reflexivity|].
           symmetry. apply Z.compare_gt_iff. lia.
    + apply Z.leb_gt in He0.
      assert (Hd : d <= 24) by lia.
      assert (Hm24 : Zpos m < 2 ^ 24).
      { apply Z.lt_le_trans with (2 ^ d); trivial. apply Z.pow_le_mono_r; lia. }
      assert (H2e : 0 < 2 ^ (- e)) by (apply Z.pow_pos_nonneg; lia).
      destruct s; unfold smant, cond_Zopp.
      * set (q := - Zpos m / 2 ^ (- e)).
        assert (Hk : q < 0) by (apply Z.div_lt_upper_bound; lia).
        assert (Hk' : - Zpos m <= q).
        { apply Z.div_le_lower_bound; trivial. nia. }
        clearbody q. destruct q as [|k|k]; try lia.
        unfold binary_normalize.
        rewrite clamp_store_of_neg by lia. lia.
      * set (q := Zpos m / 2 ^ (- e)).
        assert (Hk : 0 <= q) by (apply Z.div_pos; lia).
        assert (Hk' : q <= Zpos m).
        { apply Z.div_le_upper_bound; trivial. nia. }
        clearbody q. destruct q as [|k|k]; try lia.
        -- reflexivity.
        -- unfold binary_normalize.
           rewrite clamp_store_of_pos by lia. lia.
Qed.
End QuantiserFacts.

(** ** Rounding to nearest

    The binary32 division rounds the rational quotient to nearest; small
    integers convert, and are multiplied by 256, without rounding. *)

Module Rounding.
Import F32 F32Facts.

Lemma pow2_pos (e : Z) : (0 < pow2 e)%Q.
Proof. apply Qpower_0_lt. reflexivity. Qed.

Lemma pow2_add (a b : Z) : (pow2 (a + b) == pow2 a * pow2 b)%Q.
Proof. apply Qpower_plus. discriminate. Qed.

Lemma pow2_Z (n : Z) : 0 <= n -> (inject_Z (2 ^ n) == pow2 n)%Q.
Proof. intros H. apply Zpower_Qpower. exact H. Qed.

Lemma pow2_le (a b : Z) : a <= b -> (pow2 a <= pow2 b)%Q.
Proof. intros H. apply Qpower_le_compat_l; [exact H|discriminate]. Qed.

Lemma pow2_half (e : Z) : (pow2 (e - 1) == pow2 e * (1 # 2))%Q.
Proof. unfold Z.sub. rewrite pow2_add. reflexivity. Qed.

Lemma inject_Z_double (k : Z) : (inject_Z (2 * k) == 2 * inject_Z k)%Q.
Proof. rewrite inject_Z_mult. reflexivity. Qed.

Lemma inject_Z_double_1 (k : Z) : (inject_Z (2 * k + 1) == 2 * inject_Z k + 1)%Q.
Proof. rewrite inject_Z_plus, inject_Z_mult. reflexivity. Qed.

(** One shift to the right halves the value and keeps track of where it
    lies. *)
Lemma shr_1_position (r : shr_record) (w : Q) :
  0 <= shr_m r ->
  position (shr_m r) (loc_of_shr_record r) w ->
  position (shr_m (shr_1 r)) (loc_of_shr_record (shr_1 r)) (w * (1 # 2)).
Proof.
  destruct r as [m rb sb]. cbn [shr_m]. intros Hm.
  destruct m as [|[p|p|]|p]; try lia; clear Hm.
  - destruct rb, sb; cbn; change (inject_Z 0) with 0%Q; intros H; lra.
  - pose proof (inject_Z_double_1 (Zpos p)) as E.
    change (2 * Zpos p + 1)%Z with (Zpos p~1) in E.
    destruct rb, sb; cbn; intros H; lra.
  - pose proof (inject_Z_double (Zpos p)) as E.
    change (2 * Zpos p)%Z with (Zpos p~0) in E.
    destruct rb, sb; cbn; intros H; lra.
  - destruct rb, sb; cbn; change (inject_Z 0) with 0%Q;
      change (inject_Z 1) with 1%Q; intros H; lra.
Qed.

Lemma position_eq (m : Z) (l : location) (w w' : Q) :
  (w == w')%Q -> position m l w -> position m l w'.
Proof. intros E. destruct l as [|[ | | ]]; cbn; intros H; lra. Qed.

Lemma iter_shr_1_nonneg (n : positive) (r : shr_record) :
  0 <= shr_m r -> 0 <= shr_m (iter_pos shr_1 n r).
Proof.
  intros H. rewrite iter_shr_1_m by exact H.
  apply Z.div_pos; [exact H|]. apply Z.pow_pos_nonneg; lia.
Qed.

Lemma pow2_neg_xO (n : positive) :
  (pow2 (- Zpos n~0) == pow2 (- Zpos n) * pow2 (- Zpos n))%Q.
Proof.
  rewrite <- pow2_add. replace (- Zpos n~0) with (- Zpos n + - Zpos n) by lia.
  reflexivity.
Qed.

Lemma pow2_neg_xI (n : positive) :
  (pow2 (- Zpos n~1) == (1 # 2) * pow2 (- Zpos n) * pow2 (- Zpos n))%Q.
Proof.
  replace (- Zpos n~1) with (-1 + - Zpos n + - Zpos n) by lia.
  rewrite !pow2_add. reflexivity.
Qed.

Lemma iter_shr_1_position (n : positive) :
  forall (r : shr_record) (w : Q),
    0 <= shr_m r ->
    position (shr_m r) (loc_of_shr_record r) w ->
    position (shr_m (iter_pos shr_1 n r))
             (loc_of_shr_record (iter_pos shr_1 n r)) (w * pow2 (- Zpos n)).
Proof.
  induction n as [n IH|n IH|]; intros r w Hr Hp; cbn [iter_pos].
  - apply position_eq with (w * (1 # 2) * pow2 (- Zpos n) * pow2 (- Zpos n))%Q.
    { rewrite pow2_neg_xI. ring. }
    apply IH; [apply iter_shr_1_nonneg, shr_1_nonneg, Hr|].
    apply IH; [apply shr_1_nonneg, Hr|].
    apply shr_1_position; assumption.
  - apply position_eq with (w * pow2 (- Zpos n) * pow2 (- Zpos n))%Q.
    { rewrite pow2_neg_xO. ring. }
    apply IH; [apply iter_shr_1_nonneg, Hr|].
    apply IH; assumption.
  - apply position_eq with (w * (1 # 2))%Q; [reflexivity|].
    apply shr_1_position; assumption.
Qed.

Lemma loc_of_shr_record_of_loc (m : Z) (l : location) :
  loc_of_shr_record (shr_record_of_loc m l) = l.
Proof. destruct l as [|[ | | ]]; reflexivity. Qed.

Lemma shr_fexp_located (m e : Z) (l : location) (v : Q) :
  0 <= m -> located m e l v ->
  located (shr_m (fst (shr_fexp prec emax m e l)))
          (snd (shr_fexp prec emax m e l))
          (loc_of_shr_record (fst (shr_fexp prec emax m e l))) v.
Proof.
  intros Hm Hl. unfold shr_fexp, shr.
  destruct (fexp prec emax (Zdigits2 m + e) - e) as [|p|p]; cbn [fst snd].
  - rewrite shr_record_of_loc_m, loc_of_shr_record_of_loc. exact Hl.
  - unfold located.
    apply position_eq with (v * pow2 (- e) * pow2 (- Zpos p))%Q.
    { replace (- (e + Zpos p)) with (- e + - Zpos p) by lia.
      rewrite pow2_add. ring. }
    apply iter_shr_1_position.
    + rewrite shr_record_of_loc_m. exact Hm.
    + rewrite shr_record_of_loc_m, loc_of_shr_record_of_loc. exact Hl.
  - rewrite shr_record_of_loc_m, loc_of_shr_record_of_loc. exact Hl.
Qed.

Lemma pow2_inv (e : Z) : (pow2 (- e) * pow2 e == 1)%Q.
Proof. rewrite <- pow2_add. replace (- e + e) with 0 by lia. reflexivity. Qed.

(** Rounding to nearest: the mantissa chosen is within half a unit. *)
Lemma round_nearest_even_located (m e : Z) (l : location) (v : Q) :
  located m e l v ->
  (Qabs (inject_Z (round_nearest_even m l) * pow2 e - v) <= pow2 (e - 1))%Q.
Proof.
  unfold located. intros H.
  pose proof (pow2_pos e) as Ht. pose proof (pow2_inv e) as Hi.
  rewrite pow2_half.
  set (t := pow2 e) in *. set (u := pow2 (- e)) in *.
  assert (Hv : (v == v * u * t)%Q) by (rewrite <- Qmult_assoc, Hi; ring).
  set (w := (v * u)%Q) in *.
  apply Qabs_diff_Qle_condition.
  assert (Hw : (inject_Z (round_nearest_even m l) - (1 # 2) <= w /\
                w <= inject_Z (round_nearest_even m l) + (1 # 2))%Q).
  { destruct l as [|[ | | ]]; cbn in H |- *.
    - lra.
    - destruct (Z.even m); [|rewrite inject_Z_plus; change (inject_Z 1) with 1%Q]; lra.
    - lra.
    - rewrite inject_Z_plus. change (inject_Z 1) with 1%Q. lra. }
  clearbody w t u. destruct Hw as [Hlo Hhi].
  split; rewrite Hv; nra.
Qed.

Lemma inject_Z_pos_ge_1 (m : positive) : (1 <= inject_Z (Zpos m))%Q.
Proof. change 1%Q with (inject_Z 1). rewrite <- Zle_Qle. lia. Qed.

(** After rounding, the second alignment loses nothing. *)
Lemma shr_fexp_exact (m' e' m1 : Z) :
  0 <= m' -> canonical m' e' -> m1 = m' \/ m1 = m' + 1 ->
  e' <= snd (shr_fexp prec emax m1 e' loc_Exact) /\
  0 <= shr_m (fst (shr_fexp prec emax m1 e' loc_Exact)) /\
  (shr_m (fst (shr_fexp prec emax m1 e' loc_Exact)) = 0 -> m1 = 0) /\
  (inject_Z (shr_m (fst (shr_fexp prec emax m1 e' loc_Exact))) *
     pow2 (snd (shr_fexp prec emax m1 e' loc_Exact)) == inject_Z m1 * pow2 e')%Q.
Proof.
  intros Hm Hc H1. unfold canonical in Hc. unfold shr_fexp, shr.
  destruct (fexp prec emax (Zdigits2 m1 + e') - e') as [|p|p] eqn:Hn;
    cbn [fst snd shr_record_of_loc shr_m].
  - repeat split; try lia. 
  - assert (Hd : Zdigits2 m1 = Zdigits2 m' + 1 /\ m1 = 2 ^ Zdigits2 m').
    { destruct H1 as [->| ->]; [lia|].
      destruct (Zdigits2_succ m' Hm) as [E|[E1 E2]]; [rewrite E in Hn; lia|].
      split; assumption. }
    destruct Hd as [Hd1 Hd2].
    pose proof (Zdigits2_nonneg m') as Hdn.
    rewrite Hd1 in Hn. rewrite fexp_eq in Hn, Hc.
    assert (Hp : p = 1%positive) by lia.
    assert (Hd : 1 <= Zdigits2 m') by lia.
    subst p. cbn [iter_pos].
    rewrite shr_1_m by (cbn; lia). cbn [shr_m].
    assert (E : m1 = 2 * 2 ^ (Zdigits2 m' - 1)).
    { rewrite Hd2. replace (Zdigits2 m') with (1 + (Zdigits2 m' - 1)) at 1 by lia.
      rewrite Z.pow_add_r by lia. reflexivity. }
    assert (Hpos : 0 < 2 ^ (Zdigits2 m' - 1)) by (apply Z.pow_pos_nonneg; lia).
    assert (Q2 : m1 / 2 = 2 ^ (Zdigits2 m' - 1)).
    { rewrite E. rewrite Z.mul_comm. apply Z.div_mul. lia. }
    rewrite Q2.
    repeat split; try lia.
    rewrite E. rewrite inject_Z_double.
    replace (e' + 1) with (1 + e') by lia. rewrite pow2_add.
    change (pow2 1) with 2%Q. ring.
  - repeat split; try lia.
Qed.

Lemma binary_round_aux_magnitude (sx : bool) (mx ex : Z) (lx : location) (v : Q) :
  0 <= mx -> ex <= fexp prec emax (Zdigits2 mx + ex) ->
  located mx ex lx v ->
  match binary_round_aux prec emax sx mx ex lx with
  | S754_finite s m e =>
      s = sx /\ (Qabs (inject_Z (Zpos m) * pow2 e - v) <= pow2 (e - 1))%Q
  | S754_zero s => s = sx /\ (v <= pow2 (-150))%Q
  | S754_infinity s => s = sx /\ (pow2 104 <= v)%Q
  | S754_nan => False
  end.
Proof.
  intros Hm He Hl. unfold binary_round_aux.
  destruct (shr_fexp_spec mx ex lx Hm He) as [Hm' Hc'].
  pose proof (shr_fexp_located mx ex lx v Hm Hl) as Hl'.
  destruct (shr_fexp prec emax mx ex lx) as [mrs' e'].
  cbn [fst snd] in Hm', Hc', Hl'.
  pose proof (round_nearest_even_located _ _ _ _ Hl') as Hr.
  pose proof (round_nearest_even_cases (shr_m mrs') (loc_of_shr_record mrs')) as H1.
  set (m1 := round_nearest_even (shr_m mrs') (loc_of_shr_record mrs')) in *.
  destruct (shr_fexp_exact (shr_m mrs') e' m1 Hm' Hc' H1) as (Hee & Hnn & Hz & Hx).
  destruct (shr_fexp prec emax m1 e' loc_Exact) as [mrs'' e''].
  cbn [fst snd] in Hee, Hnn, Hz, Hx.
  pose proof (pow2_pos e'') as Hp''.
  pose proof (pow2_le (e' - 1) (e'' - 1)) as Hle.
  destruct (shr_m mrs'') as [|m|m]; [| |lia].
  - split; [reflexivity|].
    assert (E0 : m1 = 0) by (apply Hz; reflexivity).
    assert (E' : e' = -149).
    { unfold canonical in Hc'. rewrite fexp_eq in Hc'.
      assert (shr_m mrs' = 0) by lia.
      rewrite H in Hc'. cbn [Zdigits2] in Hc'. lia. }
    rewrite E0, E' in Hr. change (-149 - 1) with (-150) in Hr.
    apply Qabs_Qle_condition in Hr. destruct Hr as [Hr _].
    change (inject_Z 0) with 0%Q in Hr. lra.
  - destruct (e'' <=? emax - prec) eqn:Hfit.
    + split; [reflexivity|].
      rewrite Hx. eapply Qle_trans; [exact Hr|]. apply Hle. lia.
    + cbn. split; [reflexivity|]. change (pow2 104 <= v)%Q.
      apply Z.leb_gt in Hfit. unfold emax, prec in Hfit.
      pose proof (pow2_le 104 (e'' - 1)) as Hbig.
      assert (H104 : (pow2 104 <= pow2 (e'' - 1))%Q) by (apply Hbig; lia).
      assert (Hh : (pow2 (e' - 1) <= pow2 (e'' - 1))%Q) by (apply Hle; lia).
      rewrite <- Hx in Hr. apply Qabs_diff_Qle_condition in Hr.
      destruct Hr as [Hr _].
      pose proof (inject_Z_pos_ge_1 m) as Hm1.
      rewrite (pow2_half e'') in Hh, H104.
      set (X := pow2 e'') in *. set (Y := pow2 (e' - 1)) in *.
      set (M := inject_Z (Zpos m)) in *. set (B := pow2 104) in *.
      clearbody X Y M B. nra.
Qed.

(** *** Division *)

Lemma new_location_position (n q r : Z) (w : Q) :
  0 < n -> 0 <= r < n ->
  (w * inject_Z n == inject_Z (q * n + r))%Q ->
  position q (new_location n r) w.
Proof.
  intros Hn Hr Hw.
  rewrite inject_Z_plus, inject_Z_mult in Hw.
  assert (HN : (0 < inject_Z n)%Q) by (change 0%Q with (inject_Z 0); rewrite <- Zlt_Qlt; lia).
  assert (HR : (0 <= inject_Z r)%Q) by (change 0%Q with (inject_Z 0); rewrite <- Zle_Qle; lia).
  assert (Hlt : 2 * r < n -> (2 * inject_Z r < inject_Z n)%Q).
  { intros H. rewrite <- inject_Z_double, <- Zlt_Qlt. exact H. }
  assert (Hgt : n < 2 * r -> (inject_Z n < 2 * inject_Z r)%Q).
  { intros H. rewrite <- inject_Z_double, <- Zlt_Qlt. exact H. }
  assert (Heq : 2 * r = n -> (2 * inject_Z r == inject_Z n)%Q).
  { intros H. rewrite <- inject_Z_double, H. reflexivity. }
  assert (Hr0 : r <> 0 -> (0 < inject_Z r)%Q).
  { intros H. change 0%Q with (inject_Z 0). rewrite <- Zlt_Qlt. lia. }
  assert (Hodd : Z.even n = false -> 2 * r <> n).
  { intros Hev E. rewrite <- E, Z.even_mul in Hev. discriminate Hev. }
  assert (Hcase :
    (r = 0 /\ new_location n r = loc_Exact) \/
    (r <> 0 /\ 2 * r < n /\ new_location n r = loc_Inexact Lt) \/
    (r <> 0 /\ 2 * r = n /\ new_location n r = loc_Inexact Eq) \/
    (r <> 0 /\ n < 2 * r /\ new_location n r = loc_Inexact Gt)).
  { unfold new_location, new_location_even, new_location_odd.
    destruct (Z.even n) eqn:Hev; cbv beta;
      (destruct (Z.eqb_spec r 0) as [E|E]; [left; split; [exact E|reflexivity]|right]).
    - destruct (Z.compare_spec (2 * r) n) as [C|C|C]; auto 10.
    - specialize (Hodd eq_refl).
      destruct (Z.compare_spec (2 * r + 1) n) as [C|C|C].
      + left. repeat split; trivial; lia.
      + left. repeat split; trivial; lia.
      + right. right. repeat split; trivial; lia. }
  destruct Hcase as [[E ->]|[(E & C & ->)|[(E & C & ->)|(E & C & ->)]]];
    cbv [position];
    set (N := inject_Z n) in *; set (R := inject_Z r) in *;
    set (K := inject_Z q) in *.
  - assert (R0 : (R == 0)%Q) by (unfold R; rewrite E; reflexivity).
    clearbody N R K. apply Qle_antisym; nra.
  - specialize (Hlt C). specialize (Hr0 E). clearbody N R K. split; nra.
  - specialize (Heq C). clearbody N R K. apply Qle_antisym; nra.
  - specialize (Hgt C).
    assert (HRN : (R < N)%Q) by (unfold R, N; rewrite <- Zlt_Qlt; lia).
    clearbody N R K. split; nra.
Qed.

Lemma pow2_opp (e : Z) : (pow2 (- e) == / pow2 e)%Q.
Proof. apply Qpower_opp. Qed.

Lemma pow2_nonzero (e : Z) : ~ (pow2 e == 0)%Q.
Proof. pose proof (pow2_pos e). lra. Qed.

Lemma inject_Z_pos_nonzero (m : positive) : ~ (inject_Z (Zpos m) == 0)%Q.
Proof. pose proof (inject_Z_pos_ge_1 m). lra. Qed.

Lemma SFdiv_core_binary_located (mx : positive) (ex : Z) (my : positive) (ey : Z) :
  located (fst (fst (SFdiv_core_binary prec emax (Zpos mx) ex (Zpos my) ey)))
          (snd (fst (SFdiv_core_binary prec emax (Zpos mx) ex (Zpos my) ey)))
          (snd (SFdiv_core_binary prec emax (Zpos mx) ex (Zpos my) ey))
          (quotient mx ex my ey).
Proof.
  unfold SFdiv_core_binary.
  set (e' := Z.min (fexp prec emax (Zdigits2 (Zpos mx) + ex - (Zdigits2 (Zpos my) + ey)))
                   (ex - ey)).
  set (sh := ex - ey - e').
  assert (Hsh : 0 <= sh) by (unfold sh, e'; lia).
  set (m' := match sh with Zpos _ => Z.shiftl (Zpos mx) sh | Z0 => Zpos mx | Zneg _ => 0 end).
  assert (Hm' : m' = Zpos mx * 2 ^ sh) by (apply shiftl_cases; trivial).
  clearbody m'.
  pose proof (Z_div_mod m' (Zpos my) eq_refl) as Hdm.
  destruct (Z.div_eucl m' (Zpos my)) as [q r].
  destruct Hdm as [Hq Hr]. cbn [fst snd].
  unfold located. apply new_location_position; [lia|lia|].
  rewrite Z.mul_comm, <- Hq, Hm', inject_Z_mult, (pow2_Z sh Hsh).
  unfold quotient.
  replace sh with (ex + - ey + - e') by (unfold sh; lia).
  rewrite !pow2_add, (pow2_opp ey).
  field. split; [apply pow2_nonzero|apply inject_Z_pos_nonzero].
Qed.

Lemma F2Q_eq (s : bool) (m : positive) (e : Z) :
  (F2Q (S754_finite s m e) == inject_Z (smant s m) * pow2 e)%Q.
Proof.
  unfold F2Q. destruct (0 <=? e) eqn:He.
  - apply Z.leb_le in He. rewrite inject_Z_mult, (pow2_Z e He). reflexivity.
  - apply Z.leb_gt in He.
    rewrite Qmake_Qdiv, Z2Pos.id by (apply Z.pow_pos_nonneg; lia).
    rewrite (pow2_Z (- e)) by lia. rewrite (pow2_opp e).
    field. intros H. apply (pow2_nonzero e). 
    rewrite <- (Qinv_involutive (pow2 e)), H. reflexivity.
Qed.

Lemma smant_Q (s : bool) (m : positive) :
  (inject_Z (smant s m) == (if s then - inject_Z (Zpos m) else inject_Z (Zpos m)))%Q.
Proof. destruct s; reflexivity. Qed.

Lemma Qabs_sign (s : bool) (x : Q) :
  (Qabs (if s then - x else x) == Qabs x)%Q.
Proof. destruct s; [apply Qabs_opp|reflexivity]. Qed.

Lemma quotient_nonneg (mx : positive) (ex : Z) (my : positive) (ey : Z) :
  (0 <= quotient mx ex my ey)%Q.
Proof.
  unfold quotient.
  pose proof (inject_Z_pos_ge_1 mx). pose proof (inject_Z_pos_ge_1 my).
  pose proof (pow2_pos ex). pose proof (pow2_pos ey).
  apply Qle_shift_div_l; nra.
Qed.

Lemma F2Q_quotient (sx : bool) (mx : positive) (ex : Z)
                   (sy : bool) (my : positive) (ey : Z) :
  (F2Q (S754_finite sx mx ex) / F2Q (S754_finite sy my ey) ==
   if xorb sx sy then - quotient mx ex my ey else quotient mx ex my ey)%Q.
Proof.
  rewrite !F2Q_eq, !smant_Q. unfold quotient.
  pose proof (pow2_nonzero ey). pose proof (inject_Z_pos_nonzero my).
  destruct sx, sy; cbn [xorb]; field; auto.
Qed.

Lemma nearest_eq (v v' : Q) (z : float) :
  (v == v')%Q -> nearest v z -> nearest v' z.
Proof.
  intros E. destruct z as [s|s| |s m e]; cbn [nearest]; rewrite ?E; trivial.
Qed.

(** Division of finite numbers rounds the rational quotient to nearest. *)
Lemma div_nearest (sx : bool) (mx : positive) (ex : Z)
                  (sy : bool) (my : positive) (ey : Z) :
  nearest (F2Q (S754_finite sx mx ex) / F2Q (S754_finite sy my ey))
          (div (S754_finite sx mx ex) (S754_finite sy my ey)).
Proof.
  apply nearest_eq
    with (if xorb sx sy then - quotient mx ex my ey else quotient mx ex my ey)%Q;
    [symmetry; apply F2Q_quotient|].
  pose proof (quotient_nonneg mx ex my ey) as Hv.
  destruct (SFdiv_core_binary_aligned mx ex my ey) as (Hq & He).
  pose proof (SFdiv_core_binary_located mx ex my ey) as Hl.
  unfold div, SFdiv.
  destruct (SFdiv_core_binary prec emax (Zpos mx) ex (Zpos my) ey) as [[q e'] l].
  cbn [fst snd] in Hq, He, Hl.
  pose proof (binary_round_aux_magnitude (xorb sx sy) q e' l _ Hq He Hl) as H.
  set (v := quotient mx ex my ey) in *.
  destruct (binary_round_aux prec emax (xorb sx sy) q e' l) as [s|s| |s m e];
    cbn [nearest]; try exact H; destruct H as [-> H].
  - rewrite Qabs_sign, Qabs_pos by exact Hv. exact H.
  - rewrite Qabs_sign, Qabs_pos by exact Hv. exact H.
  - rewrite F2Q_eq, smant_Q.
    assert (E : ((if xorb sx sy then - inject_Z (Zpos m) else inject_Z (Zpos m)) * pow2 e -
                 (if xorb sx sy then - v else v) ==
                 if xorb sx sy then - (inject_Z (Zpos m) * pow2 e - v)
                 else inject_Z (Zpos m) * pow2 e - v)%Q).
    { destruct (xorb sx sy); ring. }
    rewrite E, Qabs_sign. exact H.
Qed.

(** *** Integers and their quotients *)

Lemma of_int_finite (n : Z) :
  n <> 0 -> Z.abs n < 2 ^ 24 ->
  exists s m e,
    of_int n = S754_finite s m e /\ Zpos (digits2_pos m) = 24 /\
    -23 <= e <= 0 /\ (F2Q (S754_finite s m e) == inject_Z n)%Q.
Proof.
  intros Hn Hb. unfold of_int, binary_normalize.
  destruct n as [|p|p]; [lia| |].
  - assert (Hd : Zpos (digits2_pos p) <= 24) by (apply digits2_pos_le; lia).
    destruct (binary_round_small false p Hd) as (m & e & E & Hdm & He & Hm).
    exists false, m, e. repeat split; trivial; try lia.
    rewrite F2Q_eq. cbn [smant cond_Zopp]. rewrite Hm, inject_Z_mult.
    rewrite (pow2_Z (- e)) by lia. rewrite <- Qmult_assoc, pow2_inv. ring.
  - assert (Hd : Zpos (digits2_pos p) <= 24) by (apply digits2_pos_le; lia).
    destruct (binary_round_small true p Hd) as (m & e & E & Hdm & He & Hm).
    exists true, m, e. repeat split; trivial; try lia.
    rewrite F2Q_eq. cbn [smant cond_Zopp].
    change (Z.neg m) with (- Zpos m). change (Z.neg p) with (- Zpos p).
    rewrite !inject_Z_opp, Hm, inject_Z_mult.
    rewrite (pow2_Z (- e)) by lia.
    setoid_replace (- (inject_Z (Zpos p) * pow2 (- e)) * pow2 e)%Q
      with (- inject_Z (Zpos p) * (pow2 (- e) * pow2 e))%Q by ring.
    rewrite pow2_inv. ring.
Qed.

Lemma div_of_int_nearest (n d : Z) :
  Z.abs n < 2 ^ 24 -> d <> 0 -> Z.abs d < 2 ^ 24 ->
  nearest (inject_Z n / inject_Z d) (div (of_int n) (of_int d)).
Proof.
  intros Hn Hd0 Hd.
  destruct (of_int_finite d Hd0 Hd) as (sd & md & ed & Ed & _ & _ & Vd).
  destruct (Z.eq_dec n 0) as [->|Hn0].
  - rewrite Ed. cbn. discriminate.
  - destruct (of_int_finite n Hn0 Hn) as (sn & mn & en & En & _ & _ & Vn).
    rewrite En, Ed.
    apply nearest_eq with (F2Q (S754_finite sn mn en) / F2Q (S754_finite sd md ed))%Q.
    + rewrite Vn, Vd. reflexivity.
    + apply div_nearest.
Qed.

(** Multiplying by -256 only moves the exponent. *)
Lemma mul_neg_f256 (s : bool) (m : positive) (e : Z) :
  Zpos (digits2_pos m) = 24 -> -23 <= e <= 0 ->
  mul (neg f256) (S754_finite s m e) = S754_finite (negb s) m (e + 8).
Proof.
  intros Hd He.
  change (neg f256) with (S754_finite true 8388608 (-15)).
  unfold mul, SFmul. cbn [xorb].
  change (8388608 * m)%positive with (Pos.iter xO m 23).
  unfold binary_round_aux, shr_fexp at 1.
  change (Zdigits2 (Zpos (Pos.iter xO m 23)))
    with (Zpos (digits2_pos (Pos.iter xO m 23))).
  rewrite digits2_pos_iter_xO, Pos2Z.inj_add, Hd, fexp_eq.
  replace (Z.max (24 + 23 + (-15 + e) - 24) (-149) - (-15 + e)) with 23 by lia.
  unfold shr.
  change (iter_pos shr_1 23 (shr_record_of_loc (Zpos (Pos.iter xO m 23)) loc_Exact))
    with {| shr_m := Zpos m; shr_r := false; shr_s := false |}.
  cbn [shr_m loc_of_shr_record round_nearest_even].
  replace (-15 + e + 23) with (e + 8) by lia.
  rewrite shr_fexp_canonical by lia.
  cbn [shr_record_of_loc shr_m].
  replace (e + 8 <=? emax - prec) with true; [destruct s; reflexivity|].
  symmetry. apply Z.leb_le. unfold emax, prec. lia.
Qed.

Lemma offset_nearest (lo d : Z) :
  Z.abs lo < 2 ^ 24 -> d <> 0 -> Z.abs d < 2 ^ 24 ->
  nearest (inject_Z (-256 * lo) / inject_Z d)
          (div (mul (neg f256) (of_int lo)) (of_int d)).
Proof.
  intros Hn Hd0 Hd.
  destruct (of_int_finite d Hd0 Hd) as (sd & md & ed & Ed & _ & _ & Vd).
  destruct (Z.eq_dec lo 0) as [->|Hn0].
  - rewrite Ed. cbn. discriminate.
  - destruct (of_int_finite lo Hn0 Hn) as (sn & mn & en & En & Dn & Rn & Vn).
    rewrite En, Ed, (mul_neg_f256 sn mn en Dn Rn).
    apply nearest_eq
      with (F2Q (S754_finite (negb sn) mn (en + 8)) / F2Q (S754_finite sd md ed))%Q.
    + rewrite Vd, inject_Z_mult, <- Vn, !F2Q_eq, !smant_Q, pow2_add.
      change (pow2 8) with 256%Q. change (inject_Z (-256)) with (-256)%Q.
      destruct sn; cbn [negb]; reflexivity || (apply Qdiv_comp; [ring|reflexivity]).
    + apply div_nearest.
Qed.
End Rounding.

(** ** Facts on buffers *)

Lemma length_poke (p : list Z) (i : nat) (v : Z) :
  length (poke p i v) = length p.
Proof.
  revert i. induction p as [|x q IH]; intros [|j]; simpl; auto.
Qed.

Lemma peek_poke_same (p : list Z) (i : nat) (v : Z) :
  (i < length p)%nat -> peek (poke p i v) i = v.
Proof.
  unfold peek. revert i.
  induction p as [|x q IH]; intros [|j] H; simpl in *; try lia; auto.
  apply IH. lia.
Qed.

Lemma peek_poke_other (p : list Z) (i j : nat) (v : Z) :
  i <> j -> peek (poke p i v) j = peek p j.
Proof.
  unfold peek. revert i j.
  induction p as [|x q IH]; intros [|i] [|j] H; simpl; auto; try lia.
Qed.

Lemma peek_advance (p : list Z) (n i : nat) :
  peek (advance p n) i = peek p (n + i).
Proof.
  unfold peek, advance. revert p.
  induction n as [|n IH]; intros p; simpl; auto.
  destruct p as [|x q]; simpl; auto. destruct i; reflexivity.
Qed.

Lemma uint8_range (z : Z) : 0 <= uint8 z < 256.
Proof. unfold uint8. apply Z.mod_pos_bound. lia. Qed.

Lemma int8_uint8_sub128 (c : Z) : 0 <= c <= 255 -> int8 (uint8 (c - 128)) = c - 128.
Proof.
  intros Hc. unfold int8, uint8.
  destruct (Z_lt_le_dec c 128) as [H|H].
  - replace ((c - 128) mod 256) with (c + 128).
    + replace (c + 128 <? 128) with false by (symmetry; apply Z.ltb_ge; lia). lia.
    + apply Z.mod_unique with (q := -1); lia.
  - rewrite Z.mod_small by lia.
    replace (c - 128 <? 128) with true by (symmetry; apply Z.ltb_lt; lia). lia.
Qed.

Lemma clamp_floor_range (v : float) : 0 <= clamp_floor v <= 255.
Proof.
  unfold clamp_floor. destruct v as [s|[|]| |s m e]; lia.
Qed.

(** ** The quantisation step *)

Lemma scaled_valid (x range offset : float) :
  F32.valid offset = true -> F32.valid (scaled x range offset) = true.
Proof.
  intros H. apply F32Facts.add_valid; trivial. apply F32Facts.div_valid.
Qed.

(** C1 (stated for every state, zero ranges included, and for every triple
    of binary32 coordinates, finite or not).  [lab_to_itu] stores on each
    channel the floor of [value/range + offset] clamped to [0, 255], the
    quotient and the sum being the binary32 operations of the source; the
    clamp never wraps.  When [ab_are_signed] is set, 128 is then taken away
    from the a* and b* codes: the byte stored, read as a signed byte, is the
    code minus 128.  The other bytes of the buffer are untouched.  The
    hypotheses say that the three bytes lie in the buffer and that the
    offsets are binary32 numbers, as every [float] of the program is. *)
Theorem lab_to_itu_quantises (s : lab_params_t) (out : list Z) (off : nat)
    (lab : cielab_t) :
  (off + 2 < length out)%nat ->
  F32.valid (offset_L s) = true ->
  F32.valid (offset_a s) = true ->
  F32.valid (offset_b s) = true ->
  let cL := clamp_floor (scaled (cielab.L lab) (range_L s) (offset_L s)) in
  let ca := clamp_floor (scaled (cielab.a lab) (range_a s) (offset_a s)) in
  let cb := clamp_floor (scaled (cielab.b lab) (range_b s) (offset_b s)) in
  let out' := lab_to_itu s out off lab in
  (0 <= cL <= 255 /\ 0 <= ca <= 255 /\ 0 <= cb <= 255) /\
  peek out' off = cL /\
  (ab_are_signed s = 0 ->
     peek out' (off + 1) = ca /\ peek out' (off + 2) = cb) /\
  (ab_are_signed s <> 0 ->
     peek out' (off + 1) = uint8 (ca - 128) /\
     peek out' (off + 2) = uint8 (cb - 128) /\
     int8 (peek out' (off + 1)) = ca - 128 /\
     int8 (peek out' (off + 2)) = cb - 128) /\
  length out' = length out /\
  (forall i, (i < off \/ off + 2 < i)%nat -> peek out' i = peek out i).
Proof.
  intros Hlen HvL Hva Hvb cL ca cb out'.
  pose proof (clamp_floor_range (scaled (cielab.L lab) (range_L s) (offset_L s))) as RL.
  pose proof (clamp_floor_range (scaled (cielab.a lab) (range_a s) (offset_a s))) as Ra.
  pose proof (clamp_floor_range (scaled (cielab.b lab) (range_b s) (offset_b s))) as Rb.
  fold cL in RL. fold ca in Ra. fold cb in Rb.
  assert (EL : clamp_store (F32.floorf (scaled (cielab.L lab) (range_L s) (offset_L s))) = cL)
    by (apply QuantiserFacts.clamp_store_floorf, scaled_valid; trivial).
  assert (Ea : clamp_store (F32.floorf (scaled (cielab.a lab) (range_a s) (offset_a s))) = ca)
    by (apply QuantiserFacts.clamp_store_floorf, scaled_valid; trivial).
  assert (Eb : clamp_store (F32.floorf (scaled (cielab.b lab) (range_b s) (offset_b s))) = cb)
    by (apply QuantiserFacts.clamp_store_floorf, scaled_valid; trivial).
  unfold scaled in EL, Ea, Eb.
  split; [auto|].
  subst out'. unfold lab_to_itu. rewrite EL, Ea, Eb.
  set (o1 := poke out off cL).
  set (o2 := poke o1 (off + 1) ca).
  set (o3 := poke o2 (off + 2) cb).
  assert (L1 : length o1 = length out) by apply length_poke.
  assert (L2 : length o2 = length out) by (unfold o2; rewrite length_poke; trivial).
  assert (L3 : length o3 = length out) by (unfold o3; rewrite length_poke; trivial).
  assert (P0 : peek o3 off = cL).
  { unfold o3, o2. rewrite !peek_poke_other by lia. apply peek_poke_same. lia. }
  assert (P1 : peek o3 (off + 1) = ca).
  { unfold o3. rewrite peek_poke_other by lia. apply peek_poke_same. lia. }
  assert (P2 : peek o3 (off + 2) = cb).
  { apply peek_poke_same. lia. }
  assert (Pi : forall i, (i < off \/ off + 2 < i)%nat -> peek o3 i = peek out i).
  { intros i Hi. unfold o3, o2, o1. rewrite !peek_poke_other by lia. reflexivity. }
  unfold truth. destruct (ab_are_signed s =? 0) eqn:Hs; simpl negb; cbv iota.
  - apply Z.eqb_eq in Hs. repeat split; auto; try lia.
  - apply Z.eqb_neq in Hs.
    set (o4 := poke o3 (off + 1) (uint8 (peek o3 (off + 1) - 128))).
    assert (L4 : length o4 = length out) by (unfold o4; rewrite length_poke; trivial).
    assert (Q1 : peek o4 (off + 1) = uint8 (ca - 128)).
    { unfold o4. rewrite peek_poke_same by lia. rewrite P1. reflexivity. }
    assert (Q2 : peek o4 (off + 2) = cb).
    { unfold o4. rewrite peek_poke_other by lia. exact P2. }
    rewrite Q2.
    split; [|split; [lia|split; [|split]]].
    + rewrite peek_poke_other by lia. unfold o4. rewrite peek_poke_other by lia. exact P0.
    + intros _.
      assert (R1 : peek (poke o4 (off + 2) (uint8 (cb - 128))) (off + 1) = uint8 (ca - 128))
        by (rewrite peek_poke_other by lia; exact Q1).
      assert (R2 : peek (poke o4 (off + 2) (uint8 (cb - 128))) (off + 2) = uint8 (cb - 128))
        by (apply peek_poke_same; lia).
      rewrite R1, R2. repeat split; auto using int8_uint8_sub128.
    + rewrite length_poke. exact L4.
    + intros i Hi. rewrite peek_poke_other by lia. unfold o4.
      rewrite peek_poke_other by lia. auto.
Qed.

(** The offsets stored by the two setters are binary32 numbers, so the
    statement above applies to every state they configure. *)
Lemma set_lab_gamut_offsets_valid (s : lab_params_t)
    (L_min L_max a_min a_max b_min b_max ab_signed : Z) :
  let s' := set_lab_gamut s L_min L_max a_min a_max b_min b_max ab_signed in
  F32.valid (offset_L s') = true /\ F32.valid (offset_a s') = true /\
  F32.valid (offset_b s') = true.
Proof. repeat split; apply F32Facts.div_valid. Qed.

Lemma set_lab_gamut2_offsets_valid (s : lab_params_t)
    (L_P L_Q a_P a_Q b_P b_Q : Z) :
  let s' := set_lab_gamut2 s L_P L_Q a_P a_Q b_P b_Q in
  F32.valid (offset_L s') = true /\ F32.valid (offset_a s') = true /\
  F32.valid (offset_b s') = true.
Proof. repeat split; apply F32Facts.of_int_valid. Qed.

(** Known binary32 results: 0.1f + 0.2f is 0.3f, 1.0f / 3.0f is
    11184811 * 2^-25, and 16777217 rounds to 16777216. *)
Example binary32_samples :
  F32.add (F32.lit 1 10) (F32.lit 2 10) = F32.lit 3 10 /\
  F32.div (F32.of_int 1) (F32.of_int 3) = S754_finite false 11184811 (-25) /\
  F32.of_int 16777217 = F32.of_int 16777216.
Proof. repeat split. Qed.

Example floorf_samples :
  F32.floorf (F32.lit (-5) 10) = F32.of_int (-1) /\
  F32.floorf (F32.lit 5 10) = F32.zero /\
  F32.floorf (F32.lit (-25) 10) = F32.of_int (-3) /\
  F32.floorf (F32.lit 25 10) = F32.of_int 2.
Proof. repeat split. Qed.

Example clamp_store_samples :
  clamp_store (F32.of_int (-7)) = 0 /\ clamp_store (F32.of_int 200) = 200 /\
  clamp_store (F32.of_int 255) = 255 /\ clamp_store (F32.of_int 256) = 255 /\
  clamp_store (F32.of_int 100000) = 255 /\ clamp_store S754_nan = 255.
Proof. repeat split. Qed.

(** ** The gamut given by its bounds *)

Lemma sint32_id (z : Z) : is_int z -> sint32 z = z.
Proof.
  unfold is_int, INT_MIN, INT_MAX, sint32. intros H.
  rewrite Z.mod_small by lia. lia.
Qed.

Lemma f255_sub : F32.sub f256 f1 = f255.
Proof. reflexivity. Qed.

(** C2 as it holds on the code.  After
    [set_lab_gamut (s, L_min, L_max, a_min, a_max, b_min, b_max, ab_are_signed)],
    when no difference [max - min] overflows an [int]: each offset is
    [-256 * min / (max - min)], the factor being 256 and the divisor the
    range before it is rescaled; each range is [(max - min) / 255];
    [ab_are_signed] is the argument; the white point is untouched.  The
    products and quotients are the binary32 ones of the source; for bounds
    that differ and are below [2^24] in size they are the rationals
    [-256 * min / (max - min)] and [(max - min) / 255] rounded to nearest. *)
Theorem set_lab_gamut_stores (s : lab_params_t)
    (L_min L_max a_min a_max b_min b_max ab_signed : Z) :
  is_int (L_max - L_min) -> is_int (a_max - a_min) -> is_int (b_max - b_min) ->
  let s' := set_lab_gamut s L_min L_max a_min a_max b_min b_max ab_signed in
  s' =
  {| range_L := F32.div (F32.of_int (L_max - L_min)) f255;
     range_a := F32.div (F32.of_int (a_max - a_min)) f255;
     range_b := F32.div (F32.of_int (b_max - b_min)) f255;
     offset_L := F32.div (F32.mul (F32.neg f256) (F32.of_int L_min))
                         (F32.of_int (L_max - L_min));
     offset_a := F32.div (F32.mul (F32.neg f256) (F32.of_int a_min))
                         (F32.of_int (a_max - a_min));
     offset_b := F32.div (F32.mul (F32.neg f256) (F32.of_int b_min))
                         (F32.of_int (b_max - b_min));
     ab_are_signed := ab_signed;
     x_n := x_n s; y_n := y_n s; z_n := z_n s |} /\
  (exact_bounds L_min L_max ->
   nearest (inject_Z (-256 * L_min) / inject_Z (L_max - L_min)) (offset_L s') /\
   nearest (inject_Z (L_max - L_min) / 255) (range_L s')) /\
  (exact_bounds a_min a_max ->
   nearest (inject_Z (-256 * a_min) / inject_Z (a_max - a_min)) (offset_a s') /\
   nearest (inject_Z (a_max - a_min) / 255) (range_a s')) /\
  (exact_bounds b_min b_max ->
   nearest (inject_Z (-256 * b_min) / inject_Z (b_max - b_min)) (offset_b s') /\
   nearest (inject_Z (b_max - b_min) / 255) (range_b s')).
Proof.
  intros HL Ha Hb s'.
  assert (E : s' =
    {| range_L := F32.div (F32.of_int (L_max - L_min)) f255;
       range_a := F32.div (F32.of_int (a_max - a_min)) f255;
       range_b := F32.div (F32.of_int (b_max - b_min)) f255;
       offset_L := F32.div (F32.mul (F32.neg f256) (F32.of_int L_min))
                           (F32.of_int (L_max - L_min));
       offset_a := F32.div (F32.mul (F32.neg f256) (F32.of_int a_min))
                           (F32.of_int (a_max - a_min));
       offset_b := F32.div (F32.mul (F32.neg f256) (F32.of_int b_min))
                           (F32.of_int (b_max - b_min));
       ab_are_signed := ab_signed;
       x_n := x_n s; y_n := y_n s; z_n := z_n s |}).
  { subst s'. unfold set_lab_gamut.
    rewrite !sint32_id by trivial. rewrite f255_sub. reflexivity. }
  split; [exact E|].
  rewrite E.
  cbn [range_L range_a range_b offset_L offset_a offset_b].
  repeat split;
    match goal with
    | H : exact_bounds _ _ |- _ => destruct H as (Hne & Hlo & Hd)
    end;
    solve [ apply Rounding.offset_nearest; lia
          | apply (Rounding.div_of_int_nearest _ 255); lia ].
Qed.

(** The gamut of T.42: the a* offset is [-256 * -85 / 170] and the a* range
    [170 / 255], both rounded to nearest. *)
Lemma set_lab_gamut_stores_witness :
  (is_int (100 - 0) /\ is_int (85 - -85) /\ is_int (125 - -75)) /\
  exact_bounds (-85) 85 /\
  nearest (inject_Z (-256 * -85) / inject_Z (85 - -85))
          (offset_a (set_lab_gamut lab_params_zero 0 100 (-85) 85 (-75) 125 0)) /\
  nearest (inject_Z (85 - -85) / 255)
          (range_a (set_lab_gamut lab_params_zero 0 100 (-85) 85 (-75) 125 0)).
Proof.
  assert (H1 : is_int (100 - 0)) by (unfold is_int, INT_MIN, INT_MAX; lia).
  assert (H2 : is_int (85 - -85)) by (unfold is_int, INT_MIN, INT_MAX; lia).
  assert (H3 : is_int (125 - -75)) by (unfold is_int, INT_MIN, INT_MAX; lia).
  assert (H4 : exact_bounds (-85) 85) by (unfold exact_bounds; lia).
  destruct (set_lab_gamut_stores lab_params_zero 0 100 (-85) 85 (-75) 125 0 H1 H2 H3)
    as (_ & _ & Ha & _).
  split; [auto|]. split; [exact H4|]. exact (Ha H4).
Defined.

(** C2 as stated fails.  On the gamut of T.42 the a* offset stored is 128,
    which is [-256 * -85 / 170]; the claim's [-255 * -85 / 170] is 127.5,
    which is not the value stored, nor within rounding of it, nor what the
    binary32 computation with 255 gives. *)
Lemma set_lab_gamut_offset_is_not_255_based :
  let s := set_lab_gamut lab_params_zero 0 100 (-85) 85 (-75) 125 0 in
  (F32.F2Q (offset_a s) == 128)%Q /\
  ~ (F32.F2Q (offset_a s) == inject_Z (-255 * -85) / inject_Z (85 - -85))%Q /\
  ~ nearest (inject_Z (-255 * -85) / inject_Z (85 - -85)) (offset_a s) /\
  offset_a s <> F32.div (F32.mul (F32.neg f255) (F32.of_int (-85)))
                        (F32.of_int (85 - -85)).
Proof.
  repeat split.
  - intros H. vm_compute in H. discriminate H.
  - intros H. vm_compute in H. apply H. reflexivity.
  - intros H. vm_compute in H. discriminate H.
Qed.

(** On the gamut of T.42 the offsets are exactly 0, 128 and 96, the values
    the Recommendation gives, and the ranges are 100/255, 170/255 and
    200/255 to within half a unit in the last place. *)
Example set_lab_gamut_T42 :
  let s := set_lab_gamut lab_params_zero 0 100 (-85) 85 (-75) 125 0 in
  (F32.F2Q (offset_L s) == 0 /\ F32.F2Q (offset_a s) == 128 /\
   F32.F2Q (offset_b s) == 96 /\
   Qabs (F32.F2Q (range_L s) - (100 # 255)) <= (1 # 67108864) /\
   Qabs (F32.F2Q (range_a s) - (170 # 255)) <= (1 # 33554432) /\
   Qabs (F32.F2Q (range_b s) - (200 # 255)) <= (1 # 33554432))%Q.
Proof. repeat split; vm_compute; discriminate. Qed.

(** ** The marker written on output *)

(** C5 as it holds on the code.  [SetITUFax] hands exactly one segment to
    [jpeg_write_marker]: an APP1 segment of 10 bytes, the letters G3FAX,
    the sub-type 0, the 16-bit big-endian version 1994 (bytes 07 CA) and the
    16-bit big-endian resolution 200.  Nothing else of the compressor
    changes. *)
Theorem SetITUFax_writes (cinfo : compressor) :
  SetITUFax cinfo =
    {| in_color_space := in_color_space cinfo;
       markers_written := markers_written cinfo ++ [(JPEG_APP0 + 1, ITUFax_payload)];
       lines_written := lines_written cinfo |} /\
  length ITUFax_payload = 10%nat /\
  firstn 5 ITUFax_payload = [chr "G"; chr "3"; chr "F"; chr "A"; chr "X"] /\
  peek ITUFax_payload 5 = 0 /\
  pack_16 (advance ITUFax_payload 6) = 1994 /\
  pack_16 (advance ITUFax_payload 8) = 200.
Proof. repeat split. Qed.

(** C5 as stated fails: the version field of the segment written is 1994,
    not 0. *)
Lemma SetITUFax_version_is_not_zero :
  exists payload,
    markers_written (SetITUFax (fresh_compressor JCS_YCbCr)) = [(225, payload)] /\
    pack_16 (advance payload 6) = 1994 /\
    pack_16 (advance payload 6) <> 0.
Proof.
  exists ITUFax_payload. repeat split. discriminate.
Qed.

(** ** Big-endian fields *)

Lemma pack_16_bytes (hi lo : Z) (rest : list Z) :
  is_uint8 hi -> is_uint8 lo -> pack_16 (hi :: lo :: rest) = big_endian hi lo.
Proof.
  unfold is_uint8, pack_16, big_endian, peek, uint16. simpl nth.
  intros Hhi Hlo.
  assert (Hland : Z.land (Z.shiftl hi 8) lo = 0).
  { apply Z.bits_inj'. intros n Hn. rewrite Z.land_spec, Z.bits_0.
    destruct (Z_lt_le_dec n 8) as [Hlt|Hge].
    - rewrite Z.shiftl_spec_low by trivial. reflexivity.
    - replace (Z.testbit lo n) with false; [apply andb_false_r|].
      symmetry. destruct (Z.eq_dec lo 0) as [->|Hne]; [apply Z.bits_0|].
      apply Z.bits_above_log2; [lia|].
      apply Z.lt_le_trans with 8; trivial.
      apply Z.log2_lt_pow2; lia. }
  rewrite <- Z.lxor_lor, <- Z.add_nocarry_lxor by trivial.
  rewrite Z.shiftl_mul_pow2 by lia. change (2 ^ 8) with 256.
  rewrite Z.mod_small by lia. lia.
Qed.

Lemma big_endian_range (hi lo : Z) :
  is_uint8 hi -> is_uint8 lo -> 0 <= big_endian hi lo < 65536.
Proof. unfold is_uint8, big_endian. lia. Qed.

(** An integer of 16 bits converts to binary32 without rounding. *)
Lemma of_int_exact (n : Z) :
  0 <= n < 2 ^ 24 -> (F32.F2Q (F32.of_int n) == inject_Z n)%Q.
Proof.
  intros Hn. unfold F32.of_int, binary_normalize.
  destruct n as [|p|p]; try lia; [reflexivity|].
  destruct (F32Facts.binary_round_small false p) as (m & e & -> & Hdm & He & Hm).
  { apply F32Facts.digits2_pos_le. lia. }
  assert (Hd : Zpos (digits2_pos p) <= 24) by (apply F32Facts.digits2_pos_le; lia).
  unfold F32.F2Q, F32.smant, cond_Zopp.
  destruct (0 <=? e) eqn:E.
  - apply Z.leb_le in E. assert (E0 : e = 0) by lia. clear He. subst e.
    rewrite Hm. change (2 ^ (- 0)) with 1. change (2 ^ 0) with 1.
    rewrite !Z.mul_1_r. reflexivity.
  - apply Z.leb_gt in E. unfold Qeq, inject_Z. simpl Qnum. simpl Qden.
    rewrite Z2Pos.id by (apply Z.pow_pos_nonneg; lia). lia.
Qed.

(** ** The gamut given by its code *)

Lemma peek_is_uint8 (p : list Z) (j : nat) :
  Forall is_uint8 p -> is_uint8 (peek p j).
Proof.
  unfold peek. intros H. revert j.
  induction H as [|x q Hx Hq IH]; intros [|j]; simpl; auto;
    unfold is_uint8; lia.
Qed.

(** C6.  [set_gamut_from_code] reads the twelve bytes as six 16-bit
    big-endian numbers [L_P, L_Q, a_P, a_Q, b_P, b_Q] and hands them to
    [set_lab_gamut2]: afterwards each range is the binary32 quotient [Q/255],
    which is the rational [Q/255] rounded to nearest, each offset is [P]
    (exactly: the conversion does not round),
    [ab_are_signed] is false and the white point is untouched.  One line is
    printed. *)
Theorem set_gamut_from_code_stores (code : list Z) (w : world) :
  length code = 12%nat -> Forall is_uint8 code ->
  let P i := big_endian (peek code (4 * i)) (peek code (4 * i + 1)) in
  let Q i := big_endian (peek code (4 * i + 2)) (peek code (4 * i + 3)) in
  let w' := snd (set_gamut_from_code code w) in
  params w' =
    set_lab_gamut2 (params w) (P 0%nat) (Q 0%nat) (P 1%nat) (Q 1%nat) (P 2%nat) (Q 2%nat) /\
  params w' =
    {| range_L := F32.div (F32.of_int (Q 0%nat)) f255;
       range_a := F32.div (F32.of_int (Q 1%nat)) f255;
       range_b := F32.div (F32.of_int (Q 2%nat)) f255;
       offset_L := F32.of_int (P 0%nat);
       offset_a := F32.of_int (P 1%nat);
       offset_b := F32.of_int (P 2%nat);
       ab_are_signed := 0;
       x_n := x_n (params w); y_n := y_n (params w); z_n := z_n (params w) |} /\
  nearest (inject_Z (Q 0%nat) / 255) (range_L (params w')) /\
  nearest (inject_Z (Q 1%nat) / 255) (range_a (params w')) /\
  nearest (inject_Z (Q 2%nat) / 255) (range_b (params w')) /\
  (F32.F2Q (offset_L (params w')) == inject_Z (P 0%nat))%Q /\
  (F32.F2Q (offset_a (params w')) == inject_Z (P 1%nat))%Q /\
  (F32.F2Q (offset_b (params w')) == inject_Z (P 2%nat))%Q /\
  stdout w' =
    stdout w ++ [Print_gamut (P 0%nat) (Q 0%nat) (P 1%nat) (Q 1%nat) (P 2%nat) (Q 2%nat)].
Proof.
  intros Hlen Hb P Q w'.
  assert (B : forall j, is_uint8 (peek code j))
    by (intros j; apply peek_is_uint8; exact Hb).
  assert (R : forall i, 0 <= P i < 2 ^ 24).
  { intros i. unfold P.
    pose proof (big_endian_range _ _ (B (4 * i)%nat) (B (4 * i + 1)%nat)). lia. }
  assert (RQ : forall i, 0 <= Q i < 2 ^ 24).
  { intros i. unfold Q.
    pose proof (big_endian_range _ _ (B (4 * i + 2)%nat) (B (4 * i + 3)%nat)). lia. }
  assert (E : w' = {| params := set_lab_gamut2 (params w) (P 0%nat) (Q 0%nat)
                                  (P 1%nat) (Q 1%nat) (P 2%nat) (Q 2%nat);
                      stdout := stdout w ++ [Print_gamut (P 0%nat) (Q 0%nat)
                                  (P 1%nat) (Q 1%nat) (P 2%nat) (Q 2%nat)] |}).
  { subst w'. unfold P, Q. clear B R RQ P Q.
    do 12 (destruct code as [|? code]; [discriminate Hlen|]).
    destruct code; [|discriminate Hlen]. clear Hlen.
    repeat match goal with
           | H : Forall _ (_ :: _) |- _ => inversion_clear H
           end.
    unfold set_gamut_from_code, bind, printf, update, advance.
    simpl. rewrite !pack_16_bytes by trivial. reflexivity. }
  rewrite E. cbn [params stdout].
  assert (N : forall i, nearest (inject_Z (Q i) / 255)
                          (F32.div (F32.of_int (Q i)) (F32.sub f256 f1))).
  { intros i. pose proof (RQ i).
    apply (Rounding.div_of_int_nearest (Q i) 255); lia. }
  repeat split; try reflexivity; try apply N; apply of_int_exact, R.
Qed.

(** ** The illuminant given by its code *)

Lemma memcmp_eq_4 (p q : list Z) :
  memcmp_eq p q 4 = true <->
  peek p 0 = peek q 0 /\ peek p 1 = peek q 1 /\
  peek p 2 = peek q 2 /\ peek p 3 = peek q 3.
Proof.
  cbn [memcmp_eq]. rewrite !peek_advance. cbn [plus].
  rewrite !andb_true_iff, !Z.eqb_eq. tauto.
Qed.

Lemma memcmp_same_tag (code : list Z) (e : illuminant_t) :
  memcmp_eq code (tag e) 4 = true <-> same_tag code e.
Proof. apply memcmp_eq_4. Qed.

(** Without a matching entry the search runs to the entry with the empty
    name and changes nothing. *)
Lemma scan_illuminants_no_match (code : list Z) (tbl : list illuminant_t)
    (w : world) :
  Forall (fun e => ~ same_tag code e) (catalog tbl) ->
  scan_illuminants tbl code w = (true, w).
Proof.
  induction tbl as [|e rest IH]; cbn [scan_illuminants catalog]; intros H;
    [reflexivity|].
  destruct (name_is_empty e); [reflexivity|].
  inversion_clear H as [|? ? Hne Hrest].
  destruct (memcmp_eq code (tag e) 4) eqn:Hm.
  - apply memcmp_same_tag in Hm. contradiction.
  - apply IH. exact Hrest.
Qed.

Lemma set_lab_illuminant_percent (s : lab_params_t) (x y z : float) :
  F32.gtb y f10 = true ->
  set_lab_illuminant s x y z =
  with_z_n (F32.div z f100) (with_y_n (F32.div y f100) (with_x_n (F32.div x f100) s)).
Proof. intros H. unfold set_lab_illuminant. rewrite H. reflexivity. Qed.

(** C8.  With the code of D65 (the bytes 00 'D' '6' '5'),
    [set_illuminant_from_code] stores as white point the entries of the
    table (95.047, 100, 108.883) divided by 100, because the table's [yn]
    exceeds 10.  The results are the binary32 numbers nearest to 0.95047
    and 1.08883 (within half a unit in the last place) and exactly 1.  The
    gamut and the signedness are untouched; the name of the entry is
    printed. *)
Theorem set_illuminant_from_code_D65 (w : world) :
  let w' := snd (set_illuminant_from_code D65_code w) in
  (x_n (params w') = F32.div (F32.lit 95047 1000) f100 /\
   y_n (params w') = F32.div (F32.of_int 100) f100 /\
   z_n (params w') = F32.div (F32.lit 108883 1000) f100) /\
  (x_n (params w') = F32.lit 95047 100000 /\
   y_n (params w') = F32.of_int 1 /\
   z_n (params w') = F32.lit 108883 100000) /\
  (Qabs (F32.F2Q (x_n (params w')) - (95047 # 100000)) <= (1 # 33554432) /\
   F32.F2Q (y_n (params w')) == 1 /\
   Qabs (F32.F2Q (z_n (params w')) - (108883 # 100000)) <= (1 # 16777216))%Q /\
  (range_L (params w') = range_L (params w) /\
   range_a (params w') = range_a (params w) /\
   range_b (params w') = range_b (params w) /\
   offset_L (params w') = offset_L (params w) /\
   offset_a (params w') = offset_a (params w) /\
   offset_b (params w') = offset_b (params w) /\
   ab_are_signed (params w') = ab_are_signed (params w)) /\
  stdout w' = stdout w ++ [Print_illuminant "CIE D65/2°"].
Proof.
  intros w'.
  assert (E : w' =
    {| params := set_lab_illuminant (params w) (F32.lit 95047 1000)
                   (F32.of_int 100) (F32.lit 108883 1000);
       stdout := stdout w ++ [Print_illuminant "CIE D65/2°"] |})
    by reflexivity.
  rewrite E. cbn [params stdout].
  rewrite set_lab_illuminant_percent by reflexivity.
  cbn [with_x_n with_y_n with_z_n x_n y_n z_n range_L range_a range_b
       offset_L offset_a offset_b ab_are_signed].
  repeat split; try reflexivity; vm_compute; discriminate.
Qed.

(** C9.  When the first two bytes of the code are 'C' and 'T', or when the
    code is the tag of no entry of the catalogue,
    [set_illuminant_from_code] leaves every field of the parameters as it
    was; it prints one line. *)
Theorem set_illuminant_from_code_frame (code : list Z) (w : world) :
  (peek code 0 = chr "C" /\ peek code 1 = chr "T") \/
  Forall (fun e => ~ same_tag code e) (catalog illuminants) ->
  let w' := snd (set_illuminant_from_code code w) in
  params w' = params w /\
  exists line, stdout w' = stdout w ++ [line].
Proof.
  intros H w'. subst w'. unfold set_illuminant_from_code.
  destruct ((peek code 0 =? chr "C") && (peek code 1 =? chr "T")) eqn:CT.
  - simpl. eauto.
  - destruct H as [[H0 H1]|H].
    + rewrite H0, H1 in CT. discriminate CT.
    + unfold bind. rewrite scan_illuminants_no_match by exact H.
      simpl. eauto.
Qed.

(** ** Recognition of the marker *)

Lemma bind_eq {A B} (m : M A) (k : A -> M B) (w : world) :
  bind m k w = k (fst (m w)) (snd (m w)).
Proof. unfold bind. destruct (m w). reflexivity. Qed.

Lemma strncmp_G3FAX (d : list Z) :
  strncmp_eq d G3FAX 5 = true <-> starts_with_G3FAX d.
Proof.
  unfold starts_with_G3FAX. cbn [strncmp_eq]. rewrite !peek_advance. cbn [plus].
  change (peek G3FAX 0) with 71. change (peek G3FAX 1) with 51.
  change (peek G3FAX 2) with 70. change (peek G3FAX 3) with 65.
  change (peek G3FAX 4) with 88.
  change (chr "G") with 71. change (chr "3") with 51. change (chr "F") with 70.
  change (chr "A") with 65. change (chr "X") with 88.
  repeat match goal with
         | |- context [Z.eqb ?x ?y] => destruct (Z.eqb_spec x y)
         end; intuition (try lia; try discriminate).
Qed.

(** One segment: the flag becomes true on a recognised segment and keeps
    its value on any other. *)
Lemma isITUfax_segment_flag (m : jpeg_marker) (ok : Z) (w : world) :
  (recognised m /\ fst (isITUfax_segment m ok w) = TRUE) \/
  (~ recognised m /\ fst (isITUfax_segment m ok w) = ok).
Proof.
  unfold isITUfax_segment, recognised.
  destruct (Z.eqb_spec (marker m) (JPEG_APP0 + 1)) as [Hm|Hm];
    [|right; split; [tauto|reflexivity]].
  destruct (Z.leb_spec 6 (data_length m)) as [Hl|Hl];
    [|right; split; [lia|reflexivity]].
  cbn [andb].
  destruct (strncmp_eq (data m) G3FAX 5) eqn:Hs.
  - apply strncmp_G3FAX in Hs.
    destruct (peek (data m) 5) as [|[[q|q|]|[q|q|]|]|p] eqn:Hk;
      rewrite ?bind_eq; cbn [fst snd ret];
      try (left; split; [split; [exact Hm|split; [exact Hl|split; [exact Hs|auto]]]|reflexivity]);
      right; (split; [intros (_ & _ & _ & [H|[H|H]]); discriminate H|reflexivity]).
  - right. split; [|reflexivity].
    intros (_ & _ & H & _). apply strncmp_G3FAX in H. congruence.
Qed.

(** What a segment does to the parameters and prints does not depend on
    the flag. *)
Lemma isITUfax_segment_effect (m : jpeg_marker) (ok ok' : Z) (w : world) :
  snd (isITUfax_segment m ok w) = snd (isITUfax_segment m ok' w).
Proof.
  unfold isITUfax_segment.
  destruct ((marker m =? JPEG_APP0 + 1) && (6 <=? data_length m)); [|reflexivity].
  destruct (strncmp_eq (data m) G3FAX 5); [|reflexivity].
  destruct (peek (data m) 5) as [|[[q|q|]|[q|q|]|]|p]; reflexivity.
Qed.

Lemma isITUfax_loop_flag (chain : list jpeg_marker) :
  forall ok w,
    fst (isITUfax_loop chain ok w) = TRUE /\ (ok = TRUE \/ Exists recognised chain) \/
    fst (isITUfax_loop chain ok w) = ok /\ ~ Exists recognised chain.
Proof.
  induction chain as [|m next IH]; intros ok w; cbn [isITUfax_loop].
  - right. split; [reflexivity|]. intros H. inversion H.
  - rewrite bind_eq.
    destruct (isITUfax_segment_flag m ok w) as [[Hr ->]|[Hn ->]].
    + left. split; [|right; constructor; exact Hr].
      destruct (IH TRUE (snd (isITUfax_segment m ok w))) as [[H _]|[H _]]; exact H.
    + destruct (IH ok (snd (isITUfax_segment m ok w))) as [[H [H'|H']]|[H H']].
      * left. auto.
      * left. split; [exact H|]. right. apply Exists_cons_tl. exact H'.
      * right. split; [exact H|]. intros E. inversion_clear E; contradiction.
Qed.

Lemma isITUfax_loop_effect (chain : list jpeg_marker) :
  forall ok ok' w,
    snd (isITUfax_loop chain ok w) = snd (isITUfax_loop chain ok' w).
Proof.
  induction chain as [|m next IH]; intros ok ok' w; cbn [isITUfax_loop];
    [reflexivity|].
  rewrite !bind_eq. rewrite (isITUfax_segment_effect m ok ok' w). apply IH.
Qed.

Lemma isITUfax_loop_app (c1 c2 : list jpeg_marker) :
  forall ok w,
    isITUfax_loop (c1 ++ c2) ok w =
    isITUfax_loop c2 (fst (isITUfax_loop c1 ok w)) (snd (isITUfax_loop c1 ok w)).
Proof.
  induction c1 as [|m next IH]; intros ok w; cbn [isITUfax_loop app];
    [reflexivity|].
  rewrite !bind_eq. apply IH.
Qed.

Lemma isITUfax_false_iff (chain : list jpeg_marker) (w : world) :
  fst (isITUfax chain w) = FALSE <-> ~ Exists recognised chain.
Proof.
  unfold isITUfax.
  destruct (isITUfax_loop_flag chain FALSE w) as [[H [H'|H']]|[H H']].
  - discriminate H'.
  - rewrite H. split; [discriminate|contradiction].
  - tauto.
Qed.

(** C4.  [isITUfax] answers true exactly when some segment of the chain is
    an APP1 segment of at least six bytes that starts with G3FAX and has
    sub-type 0, 1 or 2; otherwise it answers false, so sub-type 3 and the
    unknown sub-types never make it true.  The scan does not stop at a
    match: for every [n], the parameters set and the lines printed are those
    of the first [n] segments followed by those of the remaining ones,
    whatever the first [n] have answered. *)
Theorem isITUfax_recognises (chain : list jpeg_marker) (w : world) (n : nat) :
  (fst (isITUfax chain w) = TRUE <-> Exists recognised chain) /\
  (fst (isITUfax chain w) = FALSE <-> ~ Exists recognised chain) /\
  snd (isITUfax chain w) =
    snd (isITUfax (skipn n chain) (snd (isITUfax (firstn n chain) w))).
Proof.
  unfold isITUfax.
  split; [|split].
  - destruct (isITUfax_loop_flag chain FALSE w) as [[H [H'|H']]|[H H']].
    + discriminate H'.
    + tauto.
    + rewrite H. split; [discriminate|contradiction].
  - apply isITUfax_false_iff.
  - rewrite <- (firstn_skipn n chain) at 1.
    rewrite isITUfax_loop_app. apply isITUfax_loop_effect.
Qed.

(** ** Empty conversions *)

(** C10.  With a pixel count of zero or below, [srgb_to_lab] and
    [lab_to_srgb] write nothing: the destination buffer is returned as it
    was.  Neither function has a write to the parameters, which is why the
    model gives them no result for [s]. *)
Theorem no_pixels_no_write (sRGB_to_linear : Z -> float) (linear_to_sRGB : Z -> Z)
    (cbrtf : float -> float) (s : lab_params_t) (dst src : list Z) (pixels : Z) :
  pixels <= 0 ->
  srgb_to_lab sRGB_to_linear cbrtf s dst src pixels = dst /\
  lab_to_srgb linear_to_sRGB s dst src pixels = dst.
Proof.
  intros H. unfold srgb_to_lab, lab_to_srgb.
  replace (Z.to_nat pixels) with O by lia. split; reflexivity.
Qed.

(** ** A stream that is not ITU fax *)

Section NotItuFax.

Variable linear_to_sRGB : Z -> Z.

Lemma itulab_to_srgb_lines_spec (rows : list (outcome (list Z)))
    (s : lab_params_t) (output_width stride : Z) :
  forall dst pos done,
    let r := itulab_to_srgb_lines linear_to_sRGB rows s output_width stride
                                  dst pos done in
    (snd r = None <-> forallb returned rows = true) /\
    (snd r = None ->
       snd (fst r) = (done + length rows)%nat /\
       snd (fst (fst r)) = pos + stride * Z.of_nat (length rows)).
Proof.
  induction rows as [|[message|line] rest IH]; intros dst pos done;
    cbn [itulab_to_srgb_lines forallb returned andb length].
  - cbn [fst snd]. split; [tauto|]. intros _. split; lia.
  - cbn [fst snd]. split; [split; discriminate|discriminate].
  - specialize (IH (lab_to_srgb_at linear_to_sRGB s dst pos line (sint32 output_width))
                   (pos + stride) (S done)).
    cbv zeta in IH. destruct IH as [IH1 IH2].
    split; [exact IH1|].
    intros H. destruct (IH2 H) as [H1 H2]. split; [lia|]. rewrite H2. lia.
Qed.


End NotItuFax.

(** ** The round trip *)

Lemma xyz_to_lab_agree (c c' : float -> float) (xyz : float * float * float) :
  (let '(X, Y, Z) := xyz in c X = c' X /\ c Y = c' Y /\ c Z = c' Z) ->
  xyz_to_lab c xyz = xyz_to_lab c' xyz.
Proof.
  destruct xyz as [[X Y] Z]. intros (HX & HY & HZ).
  unfold xyz_to_lab, lab_f. rewrite HX, HY, HZ. reflexivity.
Qed.

(** The round trip of a pixel reads the first table at the three bytes of
    the pixel only, and takes cube roots of the normalised X, Y and Z
    only. *)
Lemma round_trip_agree (A A' : Z -> float) (B : Z -> Z) (c c' : float -> float)
    (s : lab_params_t) (x : list Z) :
  A (peek x 0) = A' (peek x 0) ->
  A (peek x 1) = A' (peek x 1) ->
  A (peek x 2) = A' (peek x 2) ->
  (let '(X, Y, Z) := xyz_of A' s x in c X = c' X /\ c Y = c' Y /\ c Z = c' Z) ->
  round_trip A B c s x = round_trip A' B c' s x.
Proof.
  intros H0 H1 H2 Hc. unfold round_trip, srgb_to_lab.
  change (Z.to_nat 1) with 1%nat. cbn [srgb_to_lab_loop].
  unfold srgb_to_lab_pixel. change (3 * 0)%nat with 0%nat. cbn [Nat.add].
  rewrite H0, H1, H2. unfold xyz_of in Hc.
  rewrite (xyz_to_lab_agree c c'
             (normalised_xyz s (A' (peek x 0)) (A' (peek x 1)) (A' (peek x 2))) Hc).
  reflexivity.
Qed.

(** Pure blue under the gamut of T.42 and D50.  Its b* is about -126,
    below the bound of -75, so its code is clamped to 0, and the pixel
    that comes back has its red channel read at entry 1081 of
    [linear_to_sRGB].  This needs of the missing parts only the two ends of
    the first table and three cube roots. *)
Lemma blue_round_trip (A : Z -> float) (B : Z -> Z) (c : float -> float) :
  A 0 = F32.zero -> A 255 = F32.of_int 1 ->
  c (S754_finite false 12562641 (-26)) = S754_finite false 9597400 (-24) ->
  c (S754_finite false 9690520 (-27)) = S754_finite false 13972119 (-25) ->
  c (S754_finite false 9662233 (-23)) = S754_finite false 8793311 (-23) ->
  srgb_to_lab A c T42_D50 [0; 0; 0] [0; 0; 255] 1 = [82; 244; 0] /\
  round_trip A B c T42_D50 [0; 0; 255] = [B 1081; B 0; B 1753].
Proof.
  intros HA0 HA1 HcX HcY HcZ.
  assert (E : round_trip A B c T42_D50 [0; 0; 255] =
              round_trip Tables.sRGB_to_linear B Tables.cbrtf T42_D50 [0; 0; 255]).
  { apply round_trip_agree.
    - exact HA0.
    - exact HA0.
    - exact HA1.
    - change (xyz_of Tables.sRGB_to_linear T42_D50 [0; 0; 255])
        with (S754_finite false 12562641 (-26), S754_finite false 9690520 (-27),
              S754_finite false 9662233 (-23)).
      cbv beta iota. rewrite HcX, HcY, HcZ. repeat split. }
  split.
  - clear E.
    unfold srgb_to_lab. change (Z.to_nat 1) with 1%nat. cbn [srgb_to_lab_loop].
    unfold srgb_to_lab_pixel. change (3 * 0)%nat with 0%nat. cbn [Nat.add].
    change (peek [0; 0; 255] 0) with 0. change (peek [0; 0; 255] 1) with 0.
    change (peek [0; 0; 255] 2) with 255.
    rewrite HA0, HA1.
    change (normalised_xyz T42_D50 F32.zero F32.zero (F32.of_int 1))
      with (S754_finite false 12562641 (-26), S754_finite false 9690520 (-27),
            S754_finite false 9662233 (-23)).
    unfold xyz_to_lab, lab_f.
    change (F32.leb (S754_finite false 12562641 (-26)) (F32.lit 8856 1000000)) with false.
    change (F32.leb (S754_finite false 9690520 (-27)) (F32.lit 8856 1000000)) with false.
    change (F32.leb (S754_finite false 9662233 (-23)) (F32.lit 8856 1000000)) with false.
    cbv iota. rewrite HcX, HcY, HcZ. vm_compute. reflexivity.
  - rewrite E. vm_compute. reflexivity.
Qed.

(** The three cube roots of [blue_round_trip] are correctly rounded. *)
Remark blue_cube_roots :
  nearest_cube_root (S754_finite false 12562641 (-26))
                    (S754_finite false 9597400 (-24)) (-24) /\
  nearest_cube_root (S754_finite false 9690520 (-27))
                    (S754_finite false 13972119 (-25)) (-25) /\
  nearest_cube_root (S754_finite false 9662233 (-23))
                    (S754_finite false 8793311 (-23)) (-23).
Proof. repeat split; vm_compute; reflexivity. Qed.

Lemma T42_D50_properly_configured : properly_configured T42_D50.
Proof. repeat split. Qed.

Lemma is_pixel_3 (r g b : Z) :
  is_uint8 r -> is_uint8 g -> is_uint8 b -> is_pixel [r; g; b].
Proof. intros. split; [reflexivity|]. repeat (constructor; try assumption). Qed.

(** The claim fails with any tables that have 0 and 1 at their ends, any
    cube root right at three points, and any re-encoding table that does
    not send the linear value 1081/4096 to black. *)
Lemma round_trip_claim_fails_with (A : Z -> float) (B : Z -> Z)
    (c : float -> float) :
  A 0 = F32.zero -> A 255 = F32.of_int 1 ->
  c (S754_finite false 12562641 (-26)) = S754_finite false 9597400 (-24) ->
  c (S754_finite false 9690520 (-27)) = S754_finite false 13972119 (-25) ->
  c (S754_finite false 9662233 (-23)) = S754_finite false 8793311 (-23) ->
  2 < B 1081 ->
  ~ round_trip_claim A B c.
Proof.
  intros HA0 HA1 HcX HcY HcZ HB Hclaim.
  destruct (blue_round_trip A B c HA0 HA1 HcX HcY HcZ) as [_ E].
  assert (P : is_pixel [0; 0; 255]) by (apply is_pixel_3; unfold is_uint8; lia).
  destruct (Hclaim [0; 0; 255] T42_D50 P T42_D50_properly_configured) as [H _].
  rewrite E in H. change (peek [B 1081; B 0; B 1753] 0) with (B 1081) in H.
  change (peek [0; 0; 255] 0) with 0 in H. lia.
Qed.


(** Clamping is not the only loss: the dark grey (4, 4, 4), whose codes
    (2, 127, 95) are inside the gamut, comes back as (0, 3, 3). *)
Remark round_trip_of_dark_grey :
  srgb_to_lab Tables.sRGB_to_linear Tables.cbrtf T42_D50 [0; 0; 0] [4; 4; 4] 1
    = [2; 127; 95] /\
  round_trip Tables.sRGB_to_linear Tables.linear_to_sRGB Tables.cbrtf T42_D50
             [4; 4; 4] = [0; 3; 3].
Proof. split; vm_compute; reflexivity. Qed.

(** Black comes back as entry 0 of the re-encoding table, whatever the rest
    of the tables and the cube root are. *)
Remark round_trip_of_black (A : Z -> float) (B : Z -> Z) (c : float -> float) :
  A 0 = F32.zero -> round_trip A B c T42_D50 [0; 0; 0] = [B 0; B 0; B 0].
Proof.
  intros HA.
  rewrite (round_trip_agree A (fun _ => F32.zero) B c c T42_D50 [0; 0; 0]);
    try exact HA.
  - vm_compute. reflexivity.
  - cbv beta iota. destruct (xyz_of _ _ _) as [[X Y] Z]. repeat split.
Qed.


(** ** The theorems at sample inputs *)

(** [lab_to_itu] with signed a* and b* on L* = 50, a* = 0, b* = -1000: the
    codes are 127, 128 and 0 (b* is clamped); the bytes stored are 127, 0
    and 128, that is 0 and -128 as signed bytes. *)
Lemma lab_to_itu_quantises_witness :
  ((0 + 2 < length [0; 0; 0])%nat /\
   F32.valid (offset_L T42_signed) = true /\
   F32.valid (offset_a T42_signed) = true /\
   F32.valid (offset_b T42_signed) = true) /\
  lab_to_itu T42_signed [0; 0; 0] 0 sample_lab = [127; 0; 128] /\
  peek (lab_to_itu T42_signed [0; 0; 0] 0 sample_lab) 0 = 127 /\
  int8 (peek (lab_to_itu T42_signed [0; 0; 0] 0 sample_lab) (0 + 1)) = 128 - 128 /\
  int8 (peek (lab_to_itu T42_signed [0; 0; 0] 0 sample_lab) (0 + 2)) = 0 - 128.
Proof.
  assert (H1 : (0 + 2 < length [0; 0; 0])%nat) by (simpl; lia).
  assert (H2 : F32.valid (offset_L T42_signed) = true) by reflexivity.
  assert (H3 : F32.valid (offset_a T42_signed) = true) by reflexivity.
  assert (H4 : F32.valid (offset_b T42_signed) = true) by reflexivity.
  destruct (lab_to_itu_quantises T42_signed [0; 0; 0] 0 sample_lab H1 H2 H3 H4)
    as (_ & HL & _ & Hs & _).
  destruct Hs as (_ & _ & Ha & Hb); [discriminate|].
  split; [auto|].
  split; [reflexivity|].
  split; [rewrite HL; reflexivity|].
  split; [rewrite Ha; reflexivity|rewrite Hb; reflexivity].
Defined.

Lemma set_gamut_from_code_stores_witness :
  (length sample_gamut_code = 12%nat /\ Forall is_uint8 sample_gamut_code) /\
  params (snd (set_gamut_from_code sample_gamut_code world_zero)) =
    set_lab_gamut2 lab_params_zero 1 2 3 4 5 262 /\
  nearest (inject_Z 262 / 255)
    (range_b (params (snd (set_gamut_from_code sample_gamut_code world_zero)))) /\
  (F32.F2Q (offset_b (params (snd (set_gamut_from_code sample_gamut_code world_zero))))
   == 5)%Q /\
  stdout (snd (set_gamut_from_code sample_gamut_code world_zero)) =
    [Print_gamut 1 2 3 4 5 262].
Proof.
  assert (H1 : length sample_gamut_code = 12%nat) by reflexivity.
  assert (H2 : Forall is_uint8 sample_gamut_code)
    by (repeat constructor; unfold is_uint8; lia).
  destruct (set_gamut_from_code_stores sample_gamut_code world_zero H1 H2)
    as (E & _ & _ & _ & Nb & _ & _ & Hb & Hp).
  split; [auto|].
  split; [exact E|].
  split; [exact Nb|].
  split; [exact Hb|exact Hp].
Defined.

(** The code 01 02 03 04 is the tag of no entry. *)
Lemma set_illuminant_from_code_frame_witness :
  Forall (fun e => ~ same_tag [1; 2; 3; 4] e) (catalog illuminants) /\
  params (snd (set_illuminant_from_code [1; 2; 3; 4] world_zero)) = lab_params_zero.
Proof.
  assert (H : Forall (fun e => ~ same_tag [1; 2; 3; 4] e) (catalog illuminants)).
  { unfold illuminants. cbn [catalog name_is_empty name].
    repeat constructor; intros (H & _); discriminate H. }
  split; [exact H|].
  exact (proj1 (set_illuminant_from_code_frame [1; 2; 3; 4] world_zero (or_intror H))).
Defined.

Lemma no_pixels_no_write_witness :
  -1 <= 0 /\
  srgb_to_lab Tables.sRGB_to_linear Tables.cbrtf T42_D50 [7; 8; 9] [1; 2; 3] (-1)
    = [7; 8; 9] /\
  lab_to_srgb Tables.linear_to_sRGB T42_D50 [7; 8; 9] [1; 2; 3] (-1) = [7; 8; 9].
Proof.
  assert (H : -1 <= 0) by lia.
  split; [exact H|].
  exact (no_pixels_no_write Tables.sRGB_to_linear Tables.linear_to_sRGB
           Tables.cbrtf T42_D50 [7; 8; 9] [1; 2; 3] (-1) H).
Defined.

